(** * sherpa / dataLayer: the relational content model of database.go

    A shallow embedding of the data-access layer ([database.go]) and of the
    schema-editor handler ([handlers.go]).  The MariaDB store is a record of
    finite maps, one per table of architecture.md, keyed by the table's
    primary key.  Go strings are byte strings, so they are Rocq [string]s;
    Go [int]/[int64] values are [Z] (no arithmetic is done on them, so no
    wrap-around arises).  A Go function returning [error] returns
    [option error]; one returning [(T, error)] returns [T + error]; functions
    that write to the store thread it explicitly, and take the failures of
    the connection as a parameter.

    Contents: Go values and errors; package [strings]; [validIdentifier];
    the store; [updateTableSchema] and [updateSchemaHandler];
    [getPieceByID]; [getAllTags]; [createContentPiece] and
    [updateContentPiece]; sample inputs; then the properties. *)

From Stdlib Require Import ZArith Ascii String List Bool Lia.
From stdpp Require Import base decidable option list sorting gmap strings pretty.

(** ** Go values *)

(** The byte 0x22: a double quote. *)
Definition dquote : ascii := "034"%char.

(** [database/sql]: nullable strings and the errors of the driver. *)
Module sql.
Record NullString : Type := mkNullString { String : string; Valid : bool }.

(** The zero value, as left by [var x sql.NullString]. *)
Definition NullString_zero : NullString := mkNullString "" false.

(** What [Scan] stores into a [*sql.NullString]. *)
Definition scanNullString (v : option string) : NullString :=
  match v with
  | Some x => mkNullString x true
  | None => NullString_zero
  end.

(** What [Scan] stores into a [*sql.NullInt64], read back through
    [.Int64]. *)
Definition scanNullInt64 (v : option Z) : Z := default 0%Z v.
End sql.

(** Go [error] values built by this package.  [fmt.Errorf] with [%w] wraps
    its cause, hence the recursive constructors. *)
Inductive error : Type :=
  | ErrNoRows                                  (* sql.ErrNoRows *)
  | ErrScanNull (index : nat) (name : string)  (* Scan of NULL into a Go string *)
  | ErrDriver (msg : string)                   (* a failure reported by the store *)
  | ErrInvalidTableName (tableName : string)
  | ErrInvalidColumnName (field : string)
  | ErrInvalidColumnType (type : string)
  | ErrAlterFailed (tableName : string) (cause : error) (query : string)
  | ErrCreateEntity (cause : error)
  | ErrInsertPiece (cause : error)
  | ErrUpdatePiece (id : Z) (cause : error).

(** [err.Error()]. *)
Fixpoint Error (e : error) : string :=
  match e with
  | ErrNoRows => "sql: no rows in result set"
  | ErrScanNull i c =>
      "sql: Scan error on column index " +:+ pretty i +:+ ", name " +:+
      String.String dquote c +:+ String.String dquote "" +:+
      ": converting NULL to string is unsupported"
  | ErrDriver m => m
  | ErrInvalidTableName t => "invalid table name: " +:+ t
  | ErrInvalidColumnName f => "invalid column name: " +:+ f
  | ErrInvalidColumnType t => "invalid characters in column type: " +:+ t
  | ErrAlterFailed t c q =>
      "failed to alter table " +:+ t +:+ ": " +:+ Error c +:+ ". Query: " +:+ q
  | ErrCreateEntity c => "failed to create entity for piece: " +:+ Error c
  | ErrInsertPiece c => "failed to insert into content_piece: " +:+ Error c
  | ErrUpdatePiece id c =>
      "failed to update content_piece with id " +:+ pretty id +:+ ": " +:+ Error c
  end.

(** The error classes of the specification, read off the errors the code
    builds.  The code has one error for a bad table name and one for a bad
    column name; both are the specification's InvalidIdentifier. *)
Definition isInvalidIdentifier (e : error) : bool :=
  match e with
  | ErrInvalidTableName _ | ErrInvalidColumnName _ => true
  | _ => false
  end.

Definition isNotFound (e : error) : bool :=
  match e with ErrNoRows => true | _ => false end.

(** ** Package [strings] *)

Module strings.
(** [strings.ContainsAny(s, chars)] for ASCII [chars]: some byte of [s]
    is one of [chars]. *)
Fixpoint ContainsRune (chars : string) (c : ascii) : bool :=
  match chars with
  | EmptyString => false
  | String.String d rest => Ascii.eqb c d || ContainsRune rest c
  end.

Fixpoint ContainsAny (s chars : string) : bool :=
  match s with
  | EmptyString => false
  | String.String c rest => ContainsRune chars c || ContainsAny rest chars
  end.

(** [strings.Join(elems, sep)]. *)
Fixpoint Join (elems : list string) (sep : string) : string :=
  match elems with
  | [] => ""
  | [x] => x
  | x :: rest => x +:+ sep +:+ Join rest sep
  end.

(** [strings.HasPrefix] and [strings.Contains]. *)
Fixpoint HasPrefix (s prefix : string) {struct prefix} : bool :=
  match prefix, s with
  | EmptyString, _ => true
  | String.String p prefix', String.String c s' =>
      Ascii.eqb p c && HasPrefix s' prefix'
  | String.String _ _, EmptyString => false
  end.

Fixpoint Contains (s substr : string) : bool :=
  HasPrefix s substr ||
  match s with
  | EmptyString => false
  | String.String _ s' => Contains s' substr
  end.

(** [s[n:]]. *)
Fixpoint dropBytes (n : nat) (s : string) : string :=
  match n, s with
  | S n', String.String _ s' => dropBytes n' s'
  | _, _ => s
  end.

(** [strings.TrimPrefix]. *)
Definition TrimPrefix (s prefix : string) : string :=
  if HasPrefix s prefix then dropBytes (String.length prefix) s else s.
End strings.

(** ** validIdentifier *)

Definition inRange (lo hi c : ascii) : bool :=
  (N_of_ascii lo <=? N_of_ascii c)%N && (N_of_ascii c <=? N_of_ascii hi)%N.

(** The class [[a-zA-Z_]]. *)
Definition identStart (c : ascii) : bool :=
  inRange "a" "z" c || inRange "A" "Z" c || Ascii.eqb c "_".

(** The class [[a-zA-Z0-9_]]. *)
Definition identRest (c : ascii) : bool :=
  inRange "a" "z" c || inRange "A" "Z" c || inRange "0" "9" c || Ascii.eqb c "_".

Fixpoint allIdentRest (s : string) : bool :=
  match s with
  | EmptyString => true
  | String.String c rest => identRest c && allIdentRest rest
  end.

(** [regexp.MatchString(`^[a-zA-Z_][a-zA-Z0-9_]*$`, s)]: the pattern is
    anchored at both ends (in Go's syntax [$] without the [m] flag is the
    end of the text), so the whole of [s] is one start byte followed by
    rest bytes. *)
Definition validIdentifier (s : string) : bool :=
  match s with
  | EmptyString => false
  | String.String c rest => identStart c && allIdentRest rest
  end.

(** The identifier grammar [[A-Za-z_][A-Za-z0-9_]*] of the specification,
    as a relation. *)
Inductive IdentTail : string → Prop :=
  | IdentTail_nil : IdentTail ""
  | IdentTail_cons c s : identRest c = true → IdentTail s → IdentTail (String.String c s).

Inductive Identifier : string → Prop :=
  | Identifier_intro c s : identStart c = true → IdentTail s → Identifier (String.String c s).

(** ** The store

    One finite map per table of architecture.md, keyed by the primary key.
    Only the columns that database.go reads or writes are kept; the others
    ([created_at], [status], [width], [height], [description]) take their
    column defaults and are never touched by the statements below. *)

Record ContentPieceRow : Type := mkContentPieceRow {
  cp_class : string;                 (* class VARCHAR(255) NOT NULL *)
  cp_title : option string           (* title TEXT, nullable *)
}.

Record ImageRow : Type := mkImageRow {
  img_src : string;                  (* src VARCHAR(1024) NOT NULL *)
  img_alt_text : option string       (* alt_text TEXT, nullable *)
}.

Record HeadingRow : Type := mkHeadingRow {
  h_text_content : string;           (* text_content VARCHAR(1024) NOT NULL *)
  h_level : Z                        (* level INT NOT NULL *)
}.

Record TagRow : Type := mkTagRow {
  tag_taxonomy_id : Z;               (* taxonomy_id INT NOT NULL *)
  tag_value : string                 (* value VARCHAR(255) NOT NULL *)
}.

Record Store : Type := mkStore {
  (** [entity(id INT PRIMARY KEY AUTO_INCREMENT)] and its counter. *)
  entity : gset Z;
  entity_auto_increment : Z;
  (** [content_piece(id PRIMARY KEY, class, title, ...)]. *)
  content_piece : gmap Z ContentPieceRow;
  (** [content_piece_contlets], PRIMARY KEY (content_piece_id, sort_order),
      mapping to contlet_id. *)
  content_piece_contlets : gmap (Z * Z) Z;
  contlet_paragraph : gmap Z string;       (* id -> text_content *)
  contlet_image : gmap Z ImageRow;
  contlet_heading : gmap Z HeadingRow;
  taxonomy : gmap Z string;                (* id -> name *)
  tag : gmap Z TagRow;
  (** The data-definition statements handed to [db.Exec], oldest first.
      Their text is arbitrary SQL, so their effect on the shape of the
      tables is not interpreted: the log is what the store was asked to
      run. *)
  statements : list string
}.

Definition emptyStore : Store :=
  mkStore ∅ 1 ∅ ∅ ∅ ∅ ∅ ∅ ∅ [].

(** The rows of the store: everything but the AUTO_INCREMENT counter,
    which InnoDB does not roll back. *)
Definition sameRows (s s' : Store) : Prop :=
  entity s = entity s' ∧
  content_piece s = content_piece s' ∧
  content_piece_contlets s = content_piece_contlets s' ∧
  contlet_paragraph s = contlet_paragraph s' ∧
  contlet_image s = contlet_image s' ∧
  contlet_heading s = contlet_heading s' ∧
  taxonomy s = taxonomy s' ∧
  tag s = tag s' ∧
  statements s = statements s'.

(** *** The connection

    Each operation of database.go makes a fixed sequence of calls on the
    connection ([db.Begin], [tx.Exec], [db.Query], ...).  [Faults] gives the
    answer of the store to the n-th call of the operation: [Some e] is a
    failure reported by the driver, [None] (or no entry) lets the call go
    through.  A query that starts delivers all its rows. *)
Definition Faults : Type := list (option error).

Definition fault (fs : Faults) (n : nat) : option error := mjoin (fs !! n).

Definition healthy : Faults := [].

(** ** Schema evolution: ColumnDetail and updateTableSchema *)

Module ColumnDetail.
(** One row of [DESCRIBE table], and one column of a schema-change
    submission.  ([Type] is a keyword, hence [Type_].) *)
Record t : Type := mk {
  Field : string;
  Type_ : string;
  Null : string;
  Key : string;
  Default : sql.NullString;
  Extra : string
}.
End ColumnDetail.
Import ColumnDetail(Field, Type_, Null, Key, Default, Extra).

(** The characters refused in a column type, the second argument of
    [strings.ContainsAny]: semicolon, closing parenthesis, single quote and
    double quote. *)
Definition typeForbidden : string := ";)'" +:+ String.String dquote "".

(** The body of the loop of [updateTableSchema] once the column has passed
    the two checks: the clause built for one column. *)
Definition columnClause (col : ColumnDetail.t) : string :=
  let clause := "MODIFY COLUMN `" +:+ Field col +:+ "` " +:+ Type_ col in
  let clause :=
    if String.eqb (Null col) "NO" then clause +:+ " NOT NULL"
    else clause +:+ " NULL" in
  let clause :=
    if sql.Valid (Default col) && negb (String.eqb (sql.String (Default col)) "")
    then clause +:+ " DEFAULT '" +:+ sql.String (Default col) +:+ "'"
    else clause in
  let clause :=
    if negb (String.eqb (Extra col) "") then clause +:+ " " +:+ Extra col
    else clause in
  clause.

(** The loop [for _, col := range columns]: it returns at the first column
    that fails a check, and appends a clause otherwise. *)
Fixpoint alterClausesFrom (alterClauses : list string) (columns : list ColumnDetail.t)
  : list string + error :=
  match columns with
  | [] => inl alterClauses
  | col :: rest =>
      if negb (validIdentifier (Field col)) then
        inr (ErrInvalidColumnName (Field col))
      else if strings.ContainsAny (Type_ col) typeForbidden then
        inr (ErrInvalidColumnType (Type_ col))
      else alterClausesFrom (alterClauses ++ [columnClause col]) rest
  end.

(** [fmt.Sprintf("ALTER TABLE `%s` %s", tableName, strings.Join(alterClauses, ", "))]. *)
Definition alterQuery (tableName : string) (alterClauses : list string) : string :=
  "ALTER TABLE `" +:+ tableName +:+ "` " +:+ strings.Join alterClauses ", ".

(** The store once it has been handed one more statement. *)
Definition withStatement (db : Store) (query : string) : Store :=
  mkStore (entity db) (entity_auto_increment db) (content_piece db)
    (content_piece_contlets db) (contlet_paragraph db) (contlet_image db)
    (contlet_heading db) (taxonomy db) (tag db) (statements db ++ [query]).

(** [db.Exec(query)] for a data-definition statement: the statement is
    handed to the store, which answers with the fault of the connection,
    if any. *)
Definition dbExecDDL (fs : Faults) (n : nat) (db : Store) (query : string)
  : Store * option error :=
  (withStatement db query, fault fs n).

Definition updateTableSchema (fs : Faults) (db : Store)
    (tableName : string) (columns : list ColumnDetail.t) : Store * option error :=
  if negb (validIdentifier tableName) then
    (db, Some (ErrInvalidTableName tableName))
  else
    match alterClausesFrom [] columns with
    | inr err => (db, Some err)
    | inl alterClauses =>
        if (length alterClauses =? 0)%nat then (db, None)
        else
          let query := alterQuery tableName alterClauses in
          match dbExecDDL fs 0 db query with
          | (db', Some err) => (db', Some (ErrAlterFailed tableName err query))
          | (db', None) => (db', None)
          end
    end.

(** ** handlers.go: updateSchemaHandler *)

Module http.
(** The part of [*http.Request] the handler reads.  [Form] is the parsed
    form ([r.Form] after [r.ParseForm()]); [ParseFormErr] is the error of
    [r.ParseForm()], if any. *)
Record Request : Type := mkRequest {
  Method : string;
  URL_Path : string;
  ParseFormErr : option string;
  Form : gmap string (list string)
}.

(** [r.FormValue(key)]: the first value for the key, or the empty
    string. *)
Definition FormValue (r : Request) (key : string) : string :=
  match Form r !! key with
  | Some (v :: _) => v
  | _ => ""
  end.

(** What the handler writes: [http.Error] or [http.Redirect]. *)
Inductive Response : Type :=
  | Error (msg : string) (code : Z)
  | Redirect (url : string) (code : Z).

Definition MethodPost : string := "POST".
Definition StatusFound : Z := 302.
Definition StatusBadRequest : Z := 400.
Definition StatusMethodNotAllowed : Z := 405.
Definition StatusInternalServerError : Z := 500.
End http.

(** [fmt.Sprintf("col_%d_<name>", i)]. *)
Definition colKey (i : nat) (name : string) : string :=
  "col_" +:+ pretty i +:+ "_" +:+ name.

(** The column descriptor read from the form at index [i]. *)
Definition columnOfForm (r : http.Request) (i : nat) : ColumnDetail.t :=
  let defaultVal := http.FormValue r (colKey i "default") in
  ColumnDetail.mk
    (http.FormValue r (colKey i "field"))
    (http.FormValue r (colKey i "type"))
    (http.FormValue r (colKey i "null"))
    (http.FormValue r (colKey i "key"))
    (if negb (String.eqb defaultVal "") then sql.mkNullString defaultVal true
     else sql.NullString_zero)
    (http.FormValue r (colKey i "extra")).

(** The loop [for i := 0; ; i++], with fuel: [None] when the fuel runs out
    before a missing [col_i_field] key ends the loop. *)
Fixpoint columnsOfForm (fuel : nat) (r : http.Request) (i : nat)
  : option (list ColumnDetail.t) :=
  match fuel with
  | O => None
  | S fuel' =>
      match http.Form r !! colKey i "field" with
      | None => Some []
      | Some _ => cons (columnOfForm r i) <$> columnsOfForm fuel' r (S i)
      end
  end.

(** Fuel that is always enough: the keys [col_i_field] are pairwise
    distinct, so the loop ends within [size (Form r)] rounds. *)
Definition formFuel (r : http.Request) : nat := S (size (http.Form r)).

Definition updateSchemaHandler (fs : Faults) (db : Store) (r : http.Request)
  : option (Store * http.Response) :=
  if negb (String.eqb (http.Method r) http.MethodPost) then
    Some (db, http.Error "Method not allowed" http.StatusMethodNotAllowed)
  else
    let tableName := strings.TrimPrefix (http.URL_Path r) "/schema/" in
    match http.ParseFormErr r with
    | Some msg =>
        Some (db, http.Error ("Failed to parse form: " +:+ msg) http.StatusBadRequest)
    | None =>
        columns ← columnsOfForm (formFuel r) r 0;
        match updateTableSchema fs db tableName columns with
        | (db', Some err) =>
            Some (db', http.Error ("Failed to update schema: " +:+ Error err)
                         http.StatusInternalServerError)
        | (db', None) => Some (db', http.Redirect "/schema" http.StatusFound)
        end
    end.

(** ** Reading a content piece: getPieceByID *)

Module ContletDetail.
Record t : Type := mk {
  ID : Z;
  Class : string;
  TextContent : string;
  Src : string;
  AltText : string;
  Level : Z
}.
End ContletDetail.

Module PieceDetail.
Record t : Type := mk {
  ID : Z;
  Class : string;
  Title : string;
  Contlets : list ContletDetail.t
}.
End PieceDetail.

(** One row of the result of the second query of [getPieceByID]: the seven
    selected columns, NULL as [None]. *)
Record ContletRow : Type := mkContletRow {
  row_contlet_id : Z;                 (* cpc.contlet_id *)
  row_class : string;                 (* CASE ... END AS class *)
  row_cp_text_content : option string;
  row_ci_src : option string;
  row_ci_alt_text : option string;
  row_ch_text_content : option string;
  row_ch_level : option Z
}.

(** [CASE WHEN cp.id IS NOT NULL THEN 'paragraph' WHEN ci.id IS NOT NULL
    THEN 'image' WHEN ch.id IS NOT NULL THEN 'heading' ELSE 'unknown' END]. *)
Definition caseClass {A B C} (cp : option A) (ci : option B) (ch : option C) : string :=
  match cp, ci, ch with
  | Some _, _, _ => "paragraph"
  | None, Some _, _ => "image"
  | None, None, Some _ => "heading"
  | None, None, None => "unknown"
  end.

(** The three LEFT JOINs for one composition edge.  Each joined table has
    [id] as its primary key, so an edge joins with at most one row of each
    and yields exactly one result row. *)
Definition joinContlet (db : Store) (contlet_id : Z) : ContletRow :=
  let cp := contlet_paragraph db !! contlet_id in
  let ci := contlet_image db !! contlet_id in
  let ch := contlet_heading db !! contlet_id in
  mkContletRow contlet_id (caseClass cp ci ch)
    cp (img_src <$> ci) (ci ≫= img_alt_text)
    (h_text_content <$> ch) (h_level <$> ch).

(** [FROM content_piece_contlets cpc WHERE cpc.content_piece_id = ?]: the
    edges of a piece as pairs (sort_order, contlet_id). *)
Definition edgeOfPiece (id : Z) (kv : Z * Z * Z) : option (Z * Z) :=
  if decide (kv.1.1 = id) then Some (kv.1.2, kv.2) else None.

Definition pieceEdges (db : Store) (id : Z) : list (Z * Z) :=
  omap (edgeOfPiece id) (map_to_list (content_piece_contlets db)).

(** [ORDER BY cpc.sort_order ASC]. *)
Definition bySortOrder (a b : Z * Z) : Prop := (a.1 ≤ b.1)%Z.

Global Instance bySortOrder_dec : RelDecision bySortOrder.
Proof. intros a b. unfold bySortOrder. apply _. Defined.

Definition queryContlets (db : Store) (id : Z) : list ContletRow :=
  (λ e, joinContlet db e.2) <$> merge_sort bySortOrder (pieceEdges db id).

(** The body of [for rows.Next()]: [rows.Scan] into the nullable holders,
    then the [switch cd.Class]. *)
Definition scanContlet (row : ContletRow) : ContletDetail.t :=
  let paraText := sql.scanNullString (row_cp_text_content row) in
  let src := sql.scanNullString (row_ci_src row) in
  let altText := sql.scanNullString (row_ci_alt_text row) in
  let headingText := sql.scanNullString (row_ch_text_content row) in
  let level := sql.scanNullInt64 (row_ch_level row) in
  let id := row_contlet_id row in
  let class := row_class row in
  if String.eqb class "paragraph" then
    ContletDetail.mk id class (sql.String paraText) "" "" 0
  else if String.eqb class "heading" then
    ContletDetail.mk id class (sql.String headingText) "" "" level
  else if String.eqb class "image" then
    ContletDetail.mk id class "" (sql.String src) (sql.String altText) 0
  else
    ContletDetail.mk id class "" "" "" 0.

Definition getPieceByID (fs : Faults) (db : Store) (id : Z) : PieceDetail.t + error :=
  (* db.QueryRow("SELECT id, class, title FROM content_piece WHERE id = ?").Scan *)
  match fault fs 0 with
  | Some err => inr err
  | None =>
      match content_piece db !! id with
      | None => inr ErrNoRows
      | Some row =>
          match cp_title row with
          | None => inr (ErrScanNull 2 "title")
          | Some title =>
              (* db.Query(query, id) *)
              match fault fs 1 with
              | Some err => inr err
              | None =>
                  inl (PieceDetail.mk id (cp_class row) title
                         (scanContlet <$> queryContlets db id))
              end
          end
      end
  end.

(** [INSERT INTO content_piece_contlets (content_piece_id, contlet_id,
    sort_order) VALUES (?, ?, ?)], the statement by which seedSampleData
    attaches a contlet to a piece.  It fails on a duplicate primary key
    (content_piece_id, sort_order). *)
Definition insertPieceContlet (db : Store) (piece contlet sort_order : Z)
  : Store * option error :=
  match content_piece_contlets db !! (piece, sort_order) with
  | Some _ => (db, Some (ErrDriver "Duplicate entry for key 'PRIMARY'"))
  | None =>
      (mkStore (entity db) (entity_auto_increment db) (content_piece db)
         (<[(piece, sort_order) := contlet]> (content_piece_contlets db))
         (contlet_paragraph db) (contlet_image db) (contlet_heading db)
         (taxonomy db) (tag db) (statements db), None)
  end.

(** ** Listing tags: getAllTags *)

Module Tag.
Record t : Type := mk {
  ID : Z;
  Value : string;
  TaxonomyName : string
}.
End Tag.

(** [FROM tag t JOIN taxonomy tx ON t.taxonomy_id = tx.id]: an inner join
    on the primary key of taxonomy. *)
Definition joinTag (db : Store) (kv : Z * TagRow) : option Tag.t :=
  name ← taxonomy db !! tag_taxonomy_id kv.2;
  Some (Tag.mk kv.1 (tag_value kv.2) name).

Definition tagRows (db : Store) : list Tag.t :=
  omap (joinTag db) (map_to_list (tag db)).

(** [ORDER BY tx.name, t.value] under the collation [coll] of the store (a
    total preorder on strings; content_db is created with
    utf8mb4_unicode_ci): first by name, and by value among equal names. *)
Definition tagOrder (coll : relation string) (a b : Tag.t) : Prop :=
  coll (Tag.TaxonomyName a) (Tag.TaxonomyName b) ∧
  (coll (Tag.TaxonomyName b) (Tag.TaxonomyName a) → coll (Tag.Value a) (Tag.Value b)).

Global Instance tagOrder_dec (coll : relation string) `{!RelDecision coll} :
  RelDecision (tagOrder coll).
Proof. intros a b. unfold tagOrder. apply _. Defined.

Definition getAllTags (coll : relation string) `{!RelDecision coll}
    (fs : Faults) (db : Store) : list Tag.t + error :=
  match fault fs 0 with
  | Some err => inr err
  | None => inl (merge_sort (tagOrder coll) (tagRows db))
  end.

(** ** Writing content pieces *)

(** A transaction of [database/sql]: the committed store, and the store as
    the transaction sees it. *)
Record Tx : Type := mkTx {
  tx_committed : Store;
  tx_view : Store
}.

(** [db.Begin()]. *)
Definition dbBegin (fs : Faults) (n : nat) (db : Store) : Tx + error :=
  match fault fs n with
  | Some err => inr err
  | None => inl (mkTx db db)
  end.

(** [tx.Rollback()]: the view is dropped. *)
Definition txRollback (tx : Tx) : Store := tx_committed tx.

(** [tx.Commit()]: the view becomes the store, unless the commit fails, in
    which case the store keeps its committed rows. *)
Definition txCommit (fs : Faults) (n : nat) (tx : Tx) : Store * option error :=
  match fault fs n with
  | Some err => (tx_committed tx, Some err)
  | None => (tx_view tx, None)
  end.

Definition withAutoIncrement (db : Store) (next : Z) : Store :=
  mkStore (entity db) next (content_piece db) (content_piece_contlets db)
    (contlet_paragraph db) (contlet_image db) (contlet_heading db)
    (taxonomy db) (tag db) (statements db).

Definition withEntity (db : Store) (id : Z) : Store :=
  mkStore ({[id]} ∪ entity db) (entity_auto_increment db) (content_piece db)
    (content_piece_contlets db) (contlet_paragraph db) (contlet_image db)
    (contlet_heading db) (taxonomy db) (tag db) (statements db).

Definition withContentPiece (db : Store) (cp : gmap Z ContentPieceRow) : Store :=
  mkStore (entity db) (entity_auto_increment db) cp (content_piece_contlets db)
    (contlet_paragraph db) (contlet_image db) (contlet_heading db)
    (taxonomy db) (tag db) (statements db).

(** [tx.Exec("INSERT INTO entity () VALUES ()")] followed by
    [res.LastInsertId()].  The AUTO_INCREMENT counter is taken at once and
    for good: InnoDB does not give an id back when the transaction rolls
    back, so the counter advances in the committed store too. *)
Definition txInsertEntity (fs : Faults) (n : nat) (tx : Tx) : (Tx * Z) + error :=
  match fault fs n with
  | Some err => inr err
  | None =>
      let id := entity_auto_increment (tx_view tx) in
      inl (mkTx (withAutoIncrement (tx_committed tx) (id + 1))
                (withAutoIncrement (withEntity (tx_view tx) id) (id + 1)), id)
  end.

(** [tx.Exec("INSERT INTO content_piece (id, title, class) VALUES (?, ?, ?)")]:
    refused by the store on a duplicate primary key, and when the id is
    not the id of an entity (FOREIGN KEY (id) REFERENCES entity(id)). *)
Definition txInsertContentPiece (fs : Faults) (n : nat) (tx : Tx)
    (id : Z) (title class : string) : Tx + error :=
  match fault fs n with
  | Some err => inr err
  | None =>
      match content_piece (tx_view tx) !! id with
      | Some _ => inr (ErrDriver "Duplicate entry for key 'PRIMARY'")
      | None =>
          if decide (id ∈ entity (tx_view tx)) then
            inl (mkTx (tx_committed tx)
                   (withContentPiece (tx_view tx)
                      (<[id := mkContentPieceRow class (Some title)]>
                         (content_piece (tx_view tx)))))
          else inr (ErrDriver "Cannot add or update a child row: a foreign key constraint fails")
      end
  end.

Definition createContentPiece (fs : Faults) (db : Store) (title class : string)
  : Store * (Z + error) :=
  match dbBegin fs 0 db with
  | inr err => (db, inr err)
  | inl tx =>
      (* Create a new entity first to get a unique ID. *)
      match txInsertEntity fs 1 tx with
      | inr err => (txRollback tx, inr (ErrCreateEntity err))
      | inl (tx, id) =>
          (* Now create the content piece with the new ID. *)
          match txInsertContentPiece fs 2 tx id title class with
          | inr err => (txRollback tx, inr (ErrInsertPiece err))
          | inl tx =>
              match txCommit fs 3 tx with
              | (db', Some err) => (db', inr err)
              | (db', None) => (db', inl id)
              end
          end
      end
  end.

(** [db.Exec("UPDATE content_piece SET title = ?, class = ? WHERE id = ?")]:
    the row with that id, if there is one, gets the new title and class.
    The number of rows affected is in the result that the code drops. *)
Definition updateContentPiece (fs : Faults) (db : Store) (id : Z) (title class : string)
  : Store * option error :=
  match fault fs 0 with
  | Some err => (db, Some (ErrUpdatePiece id err))
  | None =>
      (withContentPiece db
         (alter (λ _, mkContentPieceRow class (Some title)) id (content_piece db)),
       None)
  end.

(** ** Reading the claims: variant matches *)

(** The number of variant tables that hold a row for a contlet id. *)
Definition variantMatches (db : Store) (contlet_id : Z) : nat :=
  (if contlet_paragraph db !! contlet_id is Some _ then 1 else 0) +
  (if contlet_image db !! contlet_id is Some _ then 1 else 0) +
  (if contlet_heading db !! contlet_id is Some _ then 1 else 0).

(** The record that the variant tables give for a contlet id when they
    are probed in the order paragraph, image, heading. *)
Definition byPriority (db : Store) (contlet_id : Z) : ContletDetail.t :=
  match contlet_paragraph db !! contlet_id with
  | Some text => ContletDetail.mk contlet_id "paragraph" text "" "" 0
  | None =>
      match contlet_image db !! contlet_id with
      | Some img =>
          ContletDetail.mk contlet_id "image" "" (img_src img)
            (default "" (img_alt_text img)) 0
      | None =>
          match contlet_heading db !! contlet_id with
          | Some h =>
              ContletDetail.mk contlet_id "heading" (h_text_content h) "" "" (h_level h)
          | None => ContletDetail.mk contlet_id "unknown" "" "" "" 0
          end
      end
  end.

(** ** Sample inputs *)

Module Samples.
Local Open Scope Z_scope.

(** A column descriptor with the given name and type, nullable, without
    default or extra attribute. *)
Definition column (field type : string) : ColumnDetail.t :=
  ColumnDetail.mk field type "YES" "" sql.NullString_zero "".

(** The form of a schema-change submission with one column. *)
Definition form (field type null default extra : string)
  : gmap string (list string) :=
  list_to_map
    [("col_0_field", [field]); ("col_0_type", [type]); ("col_0_null", [null]);
     ("col_0_key", [""]); ("col_0_default", [default]); ("col_0_extra", [extra])].

Definition post (table : string) (f : gmap string (list string)) : http.Request :=
  http.mkRequest "POST" ("/schema/" +:+ table) None f.

(** A submission that names a semantic type of architecture.md. *)
Definition semanticRequest : http.Request :=
  post "content_piece" (form "title" "Single Line of Text" "YES" "" "").

(** A submission whose extra attribute is not an attribute. *)
Definition extraRequest : http.Request :=
  post "content_piece" (form "title" "TEXT" "YES" "" "; DROP TABLE entity").

(** A column whose default value holds a single quote. *)
Definition quoteColumn : ColumnDetail.t :=
  ColumnDetail.mk "title" "TEXT" "YES" ""
    (sql.mkNullString "x'; DROP TABLE entity; -- " true) "".

(** The column name of the specification's scenario, after a column
    whose type is refused. *)
Definition badTypeThenBadName : list ColumnDetail.t :=
  [column "a" "INT;"; column "name; DROP TABLE x" "INT"].

(** A piece whose first contlet is in no variant table and whose second
    contlet is in two of them (paragraph and heading). *)
Definition unresolvedStore : Store :=
  mkStore {[1; 7; 8]} 9
    {[1 := mkContentPieceRow "blog_post" (Some "About This System")]}
    {[(1, 100) := 7; (1, 200) := 8]}
    {[8 := "This system is built on MariaDB and Go."]}
    ∅
    {[8 := mkHeadingRow "Core Philosophy" 1]}
    ∅ ∅ [].

(** A piece, and the attachments of the specification's scenario: three
    contlets at the sort keys 100, 200 and 300, then a fourth at 150. *)
Definition pieceStore : Store :=
  mkStore {[1; 10; 11; 12; 13]} 14
    {[1 := mkContentPieceRow "blog_post" (Some "About This System")]}
    ∅ ∅ ∅ ∅ ∅ ∅ [].

Definition attachedStore : Store :=
  let db := (insertPieceContlet pieceStore 1 10 100).1 in
  let db := (insertPieceContlet db 1 11 200).1 in
  let db := (insertPieceContlet db 1 12 300).1 in
  (insertPieceContlet db 1 13 150).1.

(** Two taxonomies and three tags, entered out of order. *)
Definition taggedStore : Store :=
  mkStore {[1; 2; 3; 4; 5]} 6 ∅ ∅ ∅ ∅ ∅
    {[1 := "Technology"; 2 := "Audience"]}
    {[3 := mkTagRow 1 "Rust"; 4 := mkTagRow 2 "Developers"; 5 := mkTagRow 1 "Go"]}
    [].
End Samples.

(** ** The other reads and writes of database.go *)

(** *** Listings: getAllContentPieces and getAllContlets *)

Module ContentPiece.
Record t : Type := mk {
  ID : Z;
  Class : string;
  Title : string
}.
End ContentPiece.

Module Contlet.
Record t : Type := mk {
  ID : Z;
  Class : string;
  Content : string
}.
End Contlet.

(** [ORDER BY id DESC] on rows that start with the id. *)
Definition byIdDesc {A} (a b : Z * A) : Prop := (b.1 ≤ a.1)%Z.

Global Instance byIdDesc_dec {A} : RelDecision (@byIdDesc A).
Proof. intros a b. unfold byIdDesc. apply _. Defined.

(** The loop [for rows.Next() { ... rows.Scan ...; append }]: the first
    row whose scan fails ends the function with that error, and the rows
    scanned so far are dropped. *)
Fixpoint scanRows {A B} (scan : A → B + error) (acc : list B) (rows : list A)
  : list B + error :=
  match rows with
  | [] => inl acc
  | row :: rest =>
      match scan row with
      | inr err => inr err
      | inl x => scanRows scan (acc ++ [x]) rest
      end
  end.

(** [rows.Scan(&p.ID, &p.Class, &p.Title)]: the title goes into a Go
    string, which a NULL cannot be converted to. *)
Definition scanContentPiece (row : Z * ContentPieceRow) : ContentPiece.t + error :=
  match cp_title row.2 with
  | Some title => inl (ContentPiece.mk row.1 (cp_class row.2) title)
  | None => inr (ErrScanNull 2 "title")
  end.

(** [SELECT id, class, title FROM content_piece ORDER BY id DESC]. *)
Definition getAllContentPieces (fs : Faults) (db : Store)
  : list ContentPiece.t + error :=
  match fault fs 0 with
  | Some err => inr err
  | None =>
      scanRows scanContentPiece []
        (merge_sort byIdDesc (map_to_list (content_piece db)))
  end.

(** [COALESCE(a, b, c)]: the first value that is not NULL. *)
Fixpoint COALESCE (values : list (option string)) : option string :=
  match values with
  | [] => None
  | Some v :: _ => Some v
  | None :: rest => COALESCE rest
  end.

(** One entity through the three LEFT JOINs of [getAllContlets] and its
    WHERE clause: the row (e.id, content) if some variant table has the
    id, no row otherwise. *)
Definition contletSummary (db : Store) (id : Z) : option (Z * option string) :=
  let cp := contlet_paragraph db !! id in
  let ci := contlet_image db !! id in
  let ch := contlet_heading db !! id in
  if bool_decide (is_Some cp ∨ is_Some ci ∨ is_Some ch) then
    Some (id, COALESCE [cp; img_src <$> ci; h_text_content <$> ch])
  else None.

(** [rows.Scan(&c.ID, &c.Content)]; the class is never filled in. *)
Definition scanContlet_summary (row : Z * option string) : Contlet.t + error :=
  match row.2 with
  | Some content => inl (Contlet.mk row.1 "" content)
  | None => inr (ErrScanNull 1 "content")
  end.

Definition getAllContlets (fs : Faults) (db : Store) : list Contlet.t + error :=
  match fault fs 0 with
  | Some err => inr err
  | None =>
      scanRows scanContlet_summary []
        (merge_sort byIdDesc (omap (contletSummary db) (elements (entity db))))
  end.

(** The text that the listing of contlets shows for a contlet: what the
    detail read gives as its text, or as its source for an image. *)
Definition summaryOf (cd : ContletDetail.t) : string :=
  if String.eqb (ContletDetail.Class cd) "image" then ContletDetail.Src cd
  else ContletDetail.TextContent cd.

(** *** deleteContentPiece *)

(** The error of [deleteContentPiece]:
    [fmt.Errorf("failed to delete entity for piece with id %d: %w", id, err)]. *)
Inductive deleteError : Type :=
  | ErrDeletePiece (id : Z) (cause : error).

Definition deleteError_Error (e : deleteError) : string :=
  match e with
  | ErrDeletePiece id cause =>
      "failed to delete entity for piece with id " +:+ pretty id +:+ ": " +:+ Error cause
  end.

(** Some composition edge has [id] as its contlet
    ([contlet_id ... REFERENCES entity(id) ON DELETE RESTRICT]). *)
Definition usedAsContlet (db : Store) (id : Z) : bool :=
  existsb (λ kv : Z * Z * Z, bool_decide (kv.2 = id))
    (map_to_list (content_piece_contlets db)).

(** [id] is a taxonomy that some tag belongs to
    ([taxonomy_id ... REFERENCES taxonomy(id) ON DELETE RESTRICT]). *)
Definition taxonomyInUse (db : Store) (id : Z) : bool :=
  bool_decide (is_Some (taxonomy db !! id)) &&
  existsb (λ kv : Z * TagRow, bool_decide (tag_taxonomy_id kv.2 = id))
    (map_to_list (tag db)).

(** The store after the row [id] of entity is deleted and the deletion has
    cascaded.  The class tables declare
    [FOREIGN KEY (id) REFERENCES entity(id) ON DELETE CASCADE], so their row
    [id] goes.  The edges of the piece go with its content_piece row when
    the store enforces the column-level
    [content_piece_id ... REFERENCES content_piece(id) ON DELETE CASCADE]. *)
Definition cascadeDelete (inlineFK : bool) (db : Store) (id : Z) : Store :=
  mkStore (entity db ∖ {[id]}) (entity_auto_increment db)
    (delete id (content_piece db))
    (if inlineFK && bool_decide (is_Some (content_piece db !! id))
     then filter (λ kv : Z * Z * Z, kv.1.1 ≠ id) (content_piece_contlets db)
     else content_piece_contlets db)
    (delete id (contlet_paragraph db))
    (delete id (contlet_image db))
    (delete id (contlet_heading db))
    (delete id (taxonomy db))
    (delete id (tag db))
    (statements db).

(** [db.Exec("DELETE FROM entity WHERE id = ?", id)].  [inlineFK] says
    whether the store enforces the foreign keys that architecture.md
    declares in a column definition (MariaDB does from 10.5 on and ignores
    them before); the table-level foreign keys are always enforced.  A
    restricted deletion fails as a whole and changes nothing; the deletion
    of an id that entity does not hold deletes no row and succeeds. *)
Definition dbDeleteEntity (inlineFK : bool) (fs : Faults) (n : nat)
    (db : Store) (id : Z) : Store * option error :=
  match fault fs n with
  | Some err => (db, Some err)
  | None =>
      if bool_decide (id ∈ entity db) then
        if inlineFK && (usedAsContlet db id || taxonomyInUse db id) then
          (db, Some (ErrDriver
             "Cannot delete or update a parent row: a foreign key constraint fails"))
        else (cascadeDelete inlineFK db id, None)
      else (db, None)
  end.

Definition deleteContentPiece (inlineFK : bool) (fs : Faults) (db : Store) (id : Z)
  : Store * option deleteError :=
  match dbDeleteEntity inlineFK fs 0 db id with
  | (db', Some err) => (db', Some (ErrDeletePiece id err))
  | (db', None) => (db', None)
  end.

(** *** Sequences of writes *)

(** One call of a writing operation of database.go, with the answers of
    the connection to it. *)
Inductive Write : Type :=
  | CreateContentPiece (fs : Faults) (title class : string)
  | UpdateContentPiece (fs : Faults) (id : Z) (title class : string)
  | DeleteContentPiece (inlineFK : bool) (fs : Faults) (id : Z)
  | InsertPieceContlet (piece contlet sort_order : Z)
  | UpdateTableSchema (fs : Faults) (tableName : string) (columns : list ColumnDetail.t).

(** The store after one call. *)
Definition afterWrite (db : Store) (w : Write) : Store :=
  match w with
  | CreateContentPiece fs title class => (createContentPiece fs db title class).1
  | UpdateContentPiece fs id title class => (updateContentPiece fs db id title class).1
  | DeleteContentPiece inlineFK fs id => (deleteContentPiece inlineFK fs db id).1
  | InsertPieceContlet piece contlet sort_order =>
      (insertPieceContlet db piece contlet sort_order).1
  | UpdateTableSchema fs tableName columns =>
      (updateTableSchema fs db tableName columns).1
  end.

(** The store after a sequence of calls, first call first. *)
Definition afterWrites (db : Store) (ws : list Write) : Store :=
  foldl afterWrite db ws.

(** The entity table and its counter agree, and every content piece is an
    entity: what AUTO_INCREMENT and the foreign key of content_piece
    maintain. *)
Definition entitiesConsistent (db : Store) : Prop :=
  (∀ id, id ∈ entity db → (id < entity_auto_increment db)%Z) ∧
  dom (content_piece db) ⊆ entity db.

(** *** The column types of architecture.md *)

(** The store above keeps ids as integers and texts as strings of any
    length; the tables of architecture.md are narrower.  Every id and
    every sort key is an INT, class is a VARCHAR(255) and title a TEXT, and
    a text is kept in the character set of its table.  The predicates below
    say when a value fits its column as it is, whatever the SQL mode and
    the character set of the store: a number in the range of INT, and a
    text of ASCII bytes that is no longer than the column. *)
Definition INT_MIN : Z := (-2147483648)%Z.
Definition INT_MAX : Z := 2147483647%Z.

Definition fitsINT (n : Z) : bool := ((INT_MIN <=? n) && (n <=? INT_MAX))%Z.

Fixpoint asciiText (s : string) : bool :=
  match s with
  | String.EmptyString => true
  | String.String c rest => (N_of_ascii c <? 128)%N && asciiText rest
  end.

(** VARCHAR(width). *)
Definition fitsVARCHAR (width : Z) (s : string) : bool :=
  asciiText s && (Z.of_nat (String.length s) <=? width)%Z.

(** TEXT: 65535 bytes at most. *)
Definition fitsTEXT (s : string) : bool := fitsVARCHAR 65535 s.

(** A write of rows whose values fit the tables of architecture.md: the
    texts fit their columns, the next id of entity and the sort key are
    INTs, and the piece and the contlet of a new edge are rows of
    content_piece and of entity, so that both foreign keys of the edge hold
    whether the store checks them or not.  A schema change is no such
    write: its statement carries the type, default and extra texts that
    were submitted, and what it does to the tables, to their constraints and
    to the counter of entity is whatever those texts say. *)
Definition fitsSchema (db : Store) (w : Write) : Prop :=
  match w with
  | CreateContentPiece _ title class =>
      (0 < entity_auto_increment db ≤ INT_MAX)%Z ∧
      fitsTEXT title = true ∧ fitsVARCHAR 255 class = true
  | UpdateContentPiece _ _ title class =>
      fitsTEXT title = true ∧ fitsVARCHAR 255 class = true
  | DeleteContentPiece _ _ _ => True
  | InsertPieceContlet piece contlet sort_order =>
      piece ∈ dom (content_piece db) ∧ contlet ∈ entity db ∧
      fitsINT sort_order = true
  | UpdateTableSchema _ _ _ => False
  end.

(** A sequence of such writes, each one fitting the store that the writes
    before it have left. *)
Fixpoint writesFit (db : Store) (ws : list Write) : Prop :=
  match ws with
  | [] => True
  | w :: rest => fitsSchema db w ∧ writesFit (afterWrite db w) rest
  end.

(** ** handlers.go: the pages of the content pieces *)

Module strconv.
(** The value of a decimal digit. *)
Definition digit (c : ascii) : option Z :=
  if inRange "0" "9" c then Some (Z.of_N (N_of_ascii c) - 48)%Z else None.

(** The loop over the bytes of the number: [n = n*10 + int(ch)]. *)
Fixpoint digits (n : Z) (s : string) : option Z :=
  match s with
  | EmptyString => Some n
  | String.String ch rest =>
      match digit ch with
      | Some d => digits (n * 10 + d) rest
      | None => None
      end
  end.

(** [strconv.Atoi] with a 64-bit [int]: an optional sign and at least one
    decimal digit, nothing else, and a value that fits; [None] is an error
    (the callers only test [err == nil]). *)
Definition Atoi (s : string) : option Z :=
  let '(neg, body) :=
    match s with
    | String.String "-" rest => (true, rest)
    | String.String "+" rest => (false, rest)
    | _ => (false, s)
    end in
  match body with
  | EmptyString => None
  | _ =>
      match digits 0 body with
      | Some n =>
          let v := if neg : bool then (- n)%Z else n in
          if decide (- 2 ^ 63 ≤ v < 2 ^ 63)%Z then Some v else None
      | None => None
      end
  end.
End strconv.

(** [strings.Split(s, sep)] for a separator of one byte: the pieces of [s]
    between the separators, empty pieces included; one piece when [s] has
    no separator. *)
Fixpoint splitOn (sep : ascii) (s : string) : list string :=
  match s with
  | EmptyString => [""]
  | String.String c rest =>
      if Ascii.eqb c sep then "" :: splitOn sep rest
      else
        match splitOn sep rest with
        | piece :: pieces => String.String c piece :: pieces
        | [] => [String.String c ""]
        end
  end.

(** What a handler of a piece page does to the response. *)
Inductive Reply : Type :=
  | Wrote (resp : http.Response)        (* http.Error or http.Redirect *)
  | NotFound                            (* http.NotFound *)
  | Rendered (tmplName : string) (piece : option PieceDetail.t)
                                        (* renderTemplate(w, tmplName, piece) *)
  | NoReply.                            (* the handler returns without writing *)

Definition MethodGet : string := "GET".

(** [newPieceHandler]. *)
Definition newPieceHandler : Reply := Rendered "piece_form.html" None.

(** [pieceDetailHandler]. *)
Definition pieceDetailHandler (fs : Faults) (db : Store) (id : Z) : Reply :=
  match getPieceByID fs db id with
  | inr err =>
      if isNotFound err then NotFound
      else Wrote (http.Error ("Failed to retrieve piece details: " +:+ Error err)
                    http.StatusInternalServerError)
  | inl piece => Rendered "piece_form.html" (Some piece)
  end.

(** [editPieceHandler]. *)
Definition editPieceHandler (fs : Faults) (db : Store) (id : Z) : Reply :=
  match getPieceByID fs db id with
  | inr err =>
      if isNotFound err then NotFound
      else Wrote (http.Error ("Failed to retrieve piece for editing: " +:+ Error err)
                    http.StatusInternalServerError)
  | inl piece => Rendered "piece_form.html" (Some piece)
  end.

(** [createPieceHandler]. *)
Definition createPieceHandler (fs : Faults) (db : Store) (r : http.Request)
  : Store * Reply :=
  if negb (String.eqb (http.Method r) http.MethodPost) then
    (db, Wrote (http.Error "Method not allowed" http.StatusMethodNotAllowed))
  else
    match http.ParseFormErr r with
    | Some msg =>
        (db, Wrote (http.Error ("Failed to parse form: " +:+ msg) http.StatusBadRequest))
    | None =>
        let title := http.FormValue r "title" in
        let class := http.FormValue r "class" in
        match createContentPiece fs db title class with
        | (db', inr err) =>
            (db', Wrote (http.Error ("Failed to create piece: " +:+ Error err)
                           http.StatusInternalServerError))
        | (db', inl id) =>
            (db', Wrote (http.Redirect ("/pieces/" +:+ pretty id) http.StatusFound))
        end
    end.

(** [updatePieceHandler]. *)
Definition updatePieceHandler (fs : Faults) (db : Store) (r : http.Request)
  : Store * Reply :=
  if negb (String.eqb (http.Method r) http.MethodPost) then
    (db, Wrote (http.Error "Method not allowed" http.StatusMethodNotAllowed))
  else
    match http.ParseFormErr r with
    | Some msg =>
        (db, Wrote (http.Error ("Failed to parse form: " +:+ msg) http.StatusBadRequest))
    | None =>
        match strconv.Atoi (http.FormValue r "id") with
        | None =>
            (db, Wrote (http.Error "Invalid piece ID for update" http.StatusBadRequest))
        | Some id =>
            let title := http.FormValue r "title" in
            let class := http.FormValue r "class" in
            match updateContentPiece fs db id title class with
            | (db', Some err) =>
                (db', Wrote (http.Error ("Failed to update piece: " +:+ Error err)
                               http.StatusInternalServerError))
            | (db', None) =>
                (db', Wrote (http.Redirect ("/pieces/" +:+ pretty id) http.StatusFound))
            end
        end
    end.

(** [deletePieceHandler]. *)
Definition deletePieceHandler (inlineFK : bool) (fs : Faults) (db : Store)
    (r : http.Request) : Store * Reply :=
  if negb (String.eqb (http.Method r) http.MethodPost) then
    (db, Wrote (http.Error "Method not allowed" http.StatusMethodNotAllowed))
  else
    match http.ParseFormErr r with
    | Some msg =>
        (db, Wrote (http.Error ("Failed to parse form for delete: " +:+ msg)
                      http.StatusBadRequest))
    | None =>
        match strconv.Atoi (http.FormValue r "id") with
        | None =>
            (db, Wrote (http.Error "Invalid piece ID for delete" http.StatusBadRequest))
        | Some id =>
            match deleteContentPiece inlineFK fs db id with
            | (db', Some err) =>
                (db', Wrote (http.Error ("Failed to delete piece: " +:+ deleteError_Error err)
                               http.StatusInternalServerError))
            | (db', None) => (db', Wrote (http.Redirect "/pieces" http.StatusFound))
            end
        end
    end.

(** [piecesRouter]: the first case of the [switch] whose condition holds
    is taken, and no other; a case whose [strconv.Atoi] fails writes
    nothing. *)
Definition piecesRouter (inlineFK : bool) (fs : Faults) (db : Store)
    (r : http.Request) : Store * Reply :=
  let path := strings.TrimPrefix (http.URL_Path r) "/pieces/" in
  let parts := splitOn "/" path in
  let method := http.Method r in
  match parts with
  | [part] =>
      if String.eqb part "new" && String.eqb method MethodGet then
        (db, newPieceHandler)
      else if String.eqb part "create" && String.eqb method http.MethodPost then
        createPieceHandler fs db r
      else if String.eqb part "update" && String.eqb method http.MethodPost then
        updatePieceHandler fs db r
      else if String.eqb part "delete" && String.eqb method http.MethodPost then
        deletePieceHandler inlineFK fs db r
      else if negb (String.eqb part "") then
        match strconv.Atoi part with
        | Some id => (db, pieceDetailHandler fs db id)
        | None => (db, NoReply)
        end
      else (db, NotFound)
  | [part; action] =>
      if String.eqb action "edit" && String.eqb method MethodGet then
        match strconv.Atoi part with
        | Some id => (db, editPieceHandler fs db id)
        | None => (db, NoReply)
        end
      else (db, NotFound)
  | _ => (db, NotFound)
  end.

(** ** createSchemaFromArchitecture *)

(** The position of the first occurrence of [substr] in [s], if any. *)
Fixpoint indexOf (s substr : string) : option nat :=
  if strings.HasPrefix s substr then Some O
  else
    match s with
    | EmptyString => None
    | String.String _ rest => S <$> indexOf rest substr
    end.

(** [strings.Index(s, substr)]: that position, or -1. *)
Definition Index (s substr : string) : Z :=
  match indexOf s substr with
  | Some n => Z.of_nat n
  | None => (-1)%Z
  end.

(** [s[:n]]. *)
Fixpoint takeBytes (n : nat) (s : string) : string :=
  match n, s with
  | S n', String.String c rest => String.String c (takeBytes n' rest)
  | _, _ => ""
  end.

Definition schemaStart : string := "-- LAYER 0:".
Definition schemaEnd : string := "## 5. Application & UI Design".

(** The part of [createSchemaFromArchitecture] between the read of the
    file and [db.Exec]: the script cut out of the text of architecture.md,
    or the message of the [log.Fatal] that ends the process. *)
Definition extractSchema (schemaSQL : string) : string + string :=
  let sqlStartIndex := Index schemaSQL schemaStart in
  if (sqlStartIndex =? -1)%Z then
    inr "Could not find the start of the SQL schema in architecture.md"
  else
    let sqlScriptWithComments := strings.dropBytes (Z.to_nat sqlStartIndex) schemaSQL in
    let sqlEndIndex := Index sqlScriptWithComments schemaEnd in
    if (sqlEndIndex =? -1)%Z then
      inr "Could not find the end of the SQL schema in architecture.md"
    else inl (takeBytes (Z.to_nat sqlEndIndex) sqlScriptWithComments).

(** [createSchemaFromArchitecture], given what [os.ReadFile] returns: the
    store after the call, and the message of [log.Fatal] if the process
    ends there.  The script is handed to [db.Exec] as one text. *)
Definition createSchemaFromArchitecture (fs : Faults) (db : Store)
    (file : string + string) : Store * option string :=
  match file with
  | inr err => (db, Some ("Failed to read architecture.md file: " +:+ err))
  | inl schemaSQL =>
      match extractSchema schemaSQL with
      | inr fatal => (db, Some fatal)
      | inl sqlScript =>
          match dbExecDDL fs 0 db sqlScript with
          | (db', Some err) =>
              (db', Some ("Failed to execute schema script: " +:+ Error err))
          | (db', None) => (db', None)
          end
      end
  end.

(** *** Characters that end or break a quoted name *)

(** Backtick, single quote, double quote, semicolon, parentheses, comma,
    space, dash, backslash and NUL: the bytes that could close the
    backticks around a name in a statement or start something else. *)
Definition sqlSpecial : string :=
  "`';(), -\" +:+ String.String dquote (String.String "000"%char "").

(** ** More sample inputs *)

Module MoreSamples.
Local Open Scope Z_scope.

(** Two content pieces, the second without a title. *)
Definition nullTitleStore : Store :=
  mkStore {[1; 2]} 3
    {[1 := mkContentPieceRow "blog_post" (Some "About This System");
      2 := mkContentPieceRow "tweet" None]}
    ∅ ∅ ∅ ∅ ∅ ∅ [].

(** The piece of the seed data: a heading and a paragraph, and a tag. *)
Definition seededStore : Store :=
  mkStore {[1; 2; 3; 4; 5]} 6
    {[3 := mkContentPieceRow "blog_post" (Some "About This System")]}
    {[(3, 100) := 4; (3, 200) := 5]}
    {[5 := "This system is built on MariaDB and Go, following a pragmatic design."]}
    ∅
    {[4 := mkHeadingRow "Core Philosophy" 1]}
    {[1 := "Technology"]}
    {[2 := mkTagRow 1 "Go"]}
    [].

(** A submission with the columns 0 and 2 and no column 1. *)
Definition gapRequest : http.Request :=
  http.mkRequest "POST" "/schema/content_piece" None
    (list_to_map
       [("col_0_field", ["title"]); ("col_0_type", ["TEXT"]);
        ("col_2_field", ["status"]); ("col_2_type", ["TEXT"])]).

(** The submission of the form of a new piece, and a request for a page
    that is no number. *)
Definition createRequest : http.Request :=
  http.mkRequest "POST" "/pieces/create" None
    (list_to_map [("title", ["About This System"]); ("class", ["blog_post"])]).

Definition wordRequest : http.Request :=
  http.mkRequest "GET" "/pieces/about" None ∅.

(** The submission of the edit form for a piece that does not exist. *)
Definition updateMissingRequest : http.Request :=
  http.mkRequest "POST" "/pieces/update" None
    (list_to_map [("id", ["42"]); ("title", ["Hello"]); ("class", ["tweet"])]).
End MoreSamples.

(** * Properties *)

(** ** Strings *)

Section string_facts.
Implicit Types s t u : string.

Lemma HasPrefix_app s t : strings.HasPrefix (s +:+ t) s = true.
Proof.
  induction s as [|c s IH]; [done|].
  change (String.String c s +:+ t) with (String.String c (s +:+ t)).
  simpl. by rewrite Ascii.eqb_refl, IH.
Qed.

Lemma Contains_here s t : strings.Contains (s +:+ t) s = true.
Proof.
  destruct s as [|c s].
  - change ("" +:+ t) with t. by destruct t.
  - change (String.String c s +:+ t) with (String.String c (s +:+ t)).
    cbn [strings.Contains].
    change (String.String c (s +:+ t)) with (String.String c s +:+ t).
    by rewrite HasPrefix_app.
Qed.

Lemma Contains_app_r s t u :
  strings.Contains t u = true → strings.Contains (s +:+ t) u = true.
Proof.
  intros Ht. induction s as [|c s IH]; [done|].
  change (String.String c s +:+ t) with (String.String c (s +:+ t)).
  cbn [strings.Contains]. rewrite IH. apply orb_true_r.
Qed.

Lemma HasPrefix_app_l s t u :
  strings.HasPrefix s u = true → strings.HasPrefix (s +:+ t) u = true.
Proof.
  revert s. induction u as [|d u IH]; intros [|c s]; try done.
  change (String.String c s +:+ t) with (String.String c (s +:+ t)). simpl.
  intros [-> Hu]%andb_true_iff. by rewrite IH.
Qed.

Lemma Contains_app_l s t u :
  strings.Contains s u = true → strings.Contains (s +:+ t) u = true.
Proof.
  induction s as [|c s IH].
  - change ("" +:+ t) with t. destruct u; [by destruct t|done].
  - change (String.String c s +:+ t) with (String.String c (s +:+ t)).
    cbn [strings.Contains].
    intros [Hp|Hc]%orb_true_iff.
    + change (String.String c (s +:+ t)) with (String.String c s +:+ t).
      by rewrite HasPrefix_app_l.
    + rewrite IH by done. apply orb_true_r.
Qed.

Lemma Contains_Join (elems : list string) sep s u :
  s ∈ elems → strings.Contains s u = true →
  strings.Contains (strings.Join elems sep) u = true.
Proof.
  intros Hin Hu. induction elems as [|x [|y rest] IH].
  - by apply elem_of_nil in Hin.
  - apply list_elem_of_singleton in Hin as ->. done.
  - apply elem_of_cons in Hin as [->|Hin].
    + cbn [strings.Join]. by apply Contains_app_l.
    + cbn [strings.Join]. by apply Contains_app_r, Contains_app_r, IH.
Qed.
End string_facts.

(** ** validIdentifier decides the identifier grammar *)

Lemma allIdentRest_spec s : allIdentRest s = true ↔ IdentTail s.
Proof.
  induction s as [|c s IH]; simpl.
  - split; [constructor|done].
  - rewrite andb_true_iff, IH. split.
    + intros [??]. by constructor.
    + by inversion 1.
Qed.

Lemma validIdentifier_spec s : validIdentifier s = true ↔ Identifier s.
Proof.
  destruct s as [|c s]; simpl.
  - split; [done|inversion 1].
  - rewrite andb_true_iff, allIdentRest_spec. split.
    + intros [??]. by constructor.
    + by inversion 1.
Qed.

Lemma validIdentifier_false s : validIdentifier s = false ↔ ¬ Identifier s.
Proof. rewrite <-validIdentifier_spec. by destruct (validIdentifier s). Qed.

(** ** The validation loop of updateTableSchema *)

(** A column that passes both checks of the loop. *)
Definition columnAccepted (col : ColumnDetail.t) : Prop :=
  validIdentifier (Field col) = true ∧
  strings.ContainsAny (Type_ col) typeForbidden = false.

Lemma alterClausesFrom_accepted acc columns :
  Forall columnAccepted columns →
  alterClausesFrom acc columns = inl (acc ++ (columnClause <$> columns)).
Proof.
  intros Hall. revert acc.
  induction Hall as [|col rest [Hf Ht] _ IH]; intros acc; simpl.
  - by rewrite app_nil_r.
  - rewrite Hf, Ht. simpl. rewrite IH, <-app_assoc. done.
Qed.

(** The loop fails at the first column that is not accepted, with the
    error of the first check that column fails. *)
Lemma alterClausesFrom_rejected acc columns err :
  alterClausesFrom acc columns = inr err →
  ∃ before col after,
    columns = before ++ col :: after ∧
    Forall columnAccepted before ∧
    ((validIdentifier (Field col) = false ∧ err = ErrInvalidColumnName (Field col)) ∨
     (validIdentifier (Field col) = true ∧
      strings.ContainsAny (Type_ col) typeForbidden = true ∧
      err = ErrInvalidColumnType (Type_ col))).
Proof.
  revert acc. induction columns as [|col rest IH]; intros acc; simpl; [done|].
  destruct (validIdentifier (Field col)) eqn:Hf; simpl.
  - destruct (strings.ContainsAny (Type_ col) typeForbidden) eqn:Ht.
    + intros [= <-]. exists [], col, rest.
      split_and!; [done|constructor|by right].
    + intros (before & c & after & -> & Hb & Hc)%IH.
      exists (col :: before), c, after. repeat split; [|done].
      constructor; [by split|done].
  - intros [= <-]. exists [], col, rest.
    split_and!; [done|constructor|by left].
Qed.

Lemma alterClausesFrom_inl acc columns clauses :
  alterClausesFrom acc columns = inl clauses → Forall columnAccepted columns.
Proof.
  revert acc. induction columns as [|col rest IH]; intros acc; simpl; [done|].
  destruct (validIdentifier (Field col)) eqn:Hf; simpl; [|done].
  destruct (strings.ContainsAny (Type_ col) typeForbidden) eqn:Ht; [done|].
  intros ?%IH. constructor; [by split|done].
Qed.

(** ** Schema evolution *)

Lemma elem_of_split_point {A} (before after : list A) (x : A) :
  x ∈ before ++ x :: after.
Proof. apply elem_of_app. right. apply elem_of_cons. by left. Qed.

Lemma HasPrefix_refl s : strings.HasPrefix s s = true.
Proof. induction s as [|c s IH]; simpl; [done|]. by rewrite Ascii.eqb_refl. Qed.

Lemma Contains_refl s : strings.Contains s s = true.
Proof. destruct s; cbn [strings.Contains]; by rewrite HasPrefix_refl. Qed.

(** The clause of a column holds the submitted type text as it came. *)
Lemma columnClause_contains_type col :
  strings.Contains (columnClause col) (Type_ col) = true.
Proof.
  unfold columnClause.
  assert (strings.Contains
            ("MODIFY COLUMN `" +:+ Field col +:+ "` " +:+ Type_ col) (Type_ col) = true)
    as Hbase by (do 3 apply Contains_app_r; apply Contains_refl).
  revert Hbase.
  generalize ("MODIFY COLUMN `" +:+ Field col +:+ "` " +:+ Type_ col).
  intros base Hbase. cbv zeta.
  repeat match goal with |- context [if ?b then _ else _] => destruct b end;
    repeat apply Contains_app_l; exact Hbase.
Qed.

Lemma alterQuery_contains tableName clauses clause u :
  clause ∈ clauses → strings.Contains clause u = true →
  strings.Contains (alterQuery tableName clauses) u = true.
Proof.
  intros Hin Hu. unfold alterQuery.
  do 3 apply Contains_app_r. by eapply Contains_Join.
Qed.

(** What [updateTableSchema] does once validation has passed. *)
Lemma updateTableSchema_accepted fs db tableName columns :
  validIdentifier tableName = true → Forall columnAccepted columns → columns ≠ [] →
  updateTableSchema fs db tableName columns =
    let query := alterQuery tableName (columnClause <$> columns) in
    (withStatement db query,
     match fault fs 0 with
     | Some err => Some (ErrAlterFailed tableName err query)
     | None => None
     end).
Proof.
  intros Ht Hall Hne. unfold updateTableSchema.
  rewrite Ht, (alterClausesFrom_accepted [] columns Hall). simpl.
  destruct columns as [|col rest]; [done|]. simpl.
  by destruct (fault fs 0).
Qed.

(** *** The loop of the handler ends *)

Lemma string_length_app (s t : string) :
  String.length (s +:+ t) = (String.length s + String.length t)%nat.
Proof.
  induction s as [|c s IH]; [done|].
  change (String.String c s +:+ t) with (String.String c (s +:+ t)).
  simpl. by rewrite IH.
Qed.

Lemma string_app_inj_r (s1 s2 t : string) : s1 +:+ t = s2 +:+ t → s1 = s2.
Proof.
  intros Heq.
  assert (String.length s1 = String.length s2) as Hlen.
  { apply (f_equal String.length) in Heq. rewrite !string_length_app in Heq. lia. }
  revert s2 Heq Hlen. induction s1 as [|c1 s1 IH]; intros [|c2 s2] Heq Hlen;
    try done.
  change (String.String c1 (s1 +:+ t) = String.String c2 (s2 +:+ t)) in Heq.
  injection Heq as -> Heq. f_equal. apply IH; [done|]. simpl in Hlen. lia.
Qed.

Lemma colKey_inj name : Inj (=) (=) (λ i, colKey i name).
Proof.
  intros i j Heq. unfold colKey in Heq.
  apply (inj (String.app "col_")) in Heq.
  apply string_app_inj_r in Heq. by apply (inj pretty).
Qed.

(** The rounds of the loop that went through name distinct keys of the
    form, so there are no more of them than the form has keys. *)
Lemma form_rounds_bound (r : http.Request) (i : nat) :
  (∀ j, (j < i)%nat → is_Some (http.Form r !! colKey j "field")) →
  (i ≤ size (http.Form r))%nat.
Proof.
  intros Hkeys.
  pose (keys := (λ j, colKey j "field") <$> seq 0 i).
  assert (NoDup keys) as Hnodup.
  { apply NoDup_fmap_2; [apply colKey_inj|apply NoDup_seq]. }
  assert (list_to_set keys ⊆ dom (http.Form r)) as Hsub.
  { intros key Hin. rewrite elem_of_list_to_set in Hin.
    apply list_elem_of_fmap in Hin as (j & -> & Hj). apply elem_of_seq in Hj.
    apply elem_of_dom, Hkeys. lia. }
  apply subseteq_size in Hsub.
  rewrite size_list_to_set, size_dom in Hsub by done.
  unfold keys in Hsub. by rewrite length_fmap, length_seq in Hsub.
Qed.

Lemma columnsOfForm_enough_fuel (r : http.Request) (fuel i : nat) :
  (∀ j, (j < i)%nat → is_Some (http.Form r !! colKey j "field")) →
  (size (http.Form r) < fuel + i)%nat →
  is_Some (columnsOfForm fuel r i).
Proof.
  revert i. induction fuel as [|fuel IH]; intros i Hkeys Hfuel.
  - apply form_rounds_bound in Hkeys. lia.
  - simpl. destruct (http.Form r !! colKey i "field") as [vs|] eqn:Hkey; [|done].
    apply fmap_is_Some, IH; [|lia].
    intros j Hj. destruct (decide (j = i)) as [->|]; [by rewrite Hkey|].
    apply Hkeys. lia.
Qed.

(** The handler always answers. *)
Lemma updateSchemaHandler_total fs db r : is_Some (updateSchemaHandler fs db r).
Proof.
  unfold updateSchemaHandler.
  destruct (negb _); [done|]. destruct (http.ParseFormErr r); [done|].
  destruct (columnsOfForm_enough_fuel r (formFuel r) 0) as [columns ->].
  - intros j Hj. lia.
  - unfold formFuel. lia.
  - simpl. by destruct (updateTableSchema _ _ _ _) as [? []].
Qed.

(** C1, counterexample.  A submission that names the semantic type
    "Single Line of Text" is not translated and is not refused: the handler
    hands the store a statement that holds the semantic label itself, the
    text the caller sent, and redirects as after a success. *)
Lemma semantic_type_reaches_statement :
  updateSchemaHandler healthy emptyStore Samples.semanticRequest =
    Some (withStatement emptyStore
            "ALTER TABLE `content_piece` MODIFY COLUMN `title` Single Line of Text NULL",
          http.Redirect "/schema" 302) ∧
  strings.Contains
    "ALTER TABLE `content_piece` MODIFY COLUMN `title` Single Line of Text NULL"
    "Single Line of Text" = true.
Proof. split; vm_compute; reflexivity. Qed.

(** C1, as amended.  The physical type of a column is the type text of the
    submission.  With a table name and column names that are identifiers
    and at least one column: when no type text holds a semicolon, a closing
    parenthesis or a quote, the store is handed one statement, the ALTER
    TABLE of the clauses of the columns in order, and it contains each
    submitted type text as it came; when some type text holds one of these
    characters, the call fails with the invalid-type error of such a column
    and the store is left as it was. *)
Theorem updateTableSchema_raw_type fs db tableName columns :
  Identifier tableName →
  Forall (λ col, Identifier (Field col)) columns →
  columns ≠ [] →
  (Forall (λ col, strings.ContainsAny (Type_ col) typeForbidden = false) columns →
   ∃ db' res query,
     updateTableSchema fs db tableName columns = (db', res) ∧
     query = alterQuery tableName (columnClause <$> columns) ∧
     statements db' = statements db ++ [query] ∧
     (res = None ↔ fault fs 0 = None) ∧
     Forall (λ col, strings.Contains query (Type_ col) = true) columns) ∧
  (Exists (λ col, strings.ContainsAny (Type_ col) typeForbidden = true) columns →
   ∃ col, col ∈ columns ∧
     strings.ContainsAny (Type_ col) typeForbidden = true ∧
     updateTableSchema fs db tableName columns =
       (db, Some (ErrInvalidColumnType (Type_ col)))).
Proof.
  intros Ht%validIdentifier_spec Hf Hne. split.
  - intros Hty.
    assert (Forall columnAccepted columns) as Hall.
    { apply Forall_forall. intros col Hin. split.
      - apply validIdentifier_spec. by eapply Forall_forall in Hf.
      - by eapply Forall_forall in Hty. }
    rewrite (updateTableSchema_accepted fs db _ _ Ht Hall Hne). cbv zeta.
    eexists _, _, _. split_and!; [done..| |].
    + by destruct (fault fs 0).
    + apply Forall_forall. intros col Hin.
      apply (alterQuery_contains _ _ (columnClause col)).
      * apply list_elem_of_fmap. by exists col.
      * apply columnClause_contains_type.
  - intros Hex. unfold updateTableSchema. rewrite Ht. simpl.
    destruct (alterClausesFrom [] columns) as [clauses|err] eqn:Hloop.
    + apply alterClausesFrom_inl in Hloop.
      apply Exists_exists in Hex as (col & Hin & Hbad).
      eapply Forall_forall in Hloop as [_ Hok]; [|done]. congruence.
    + apply alterClausesFrom_rejected in Hloop
        as (before & col & after & -> & _ & [[Hbad _]|(_ & Hbad & ->)]).
      * eapply Forall_forall in Hf; [|apply elem_of_split_point].
        apply validIdentifier_spec in Hf. congruence.
      * exists col. split_and!; [apply elem_of_split_point|done..].
Qed.

Lemma updateTableSchema_raw_type_witness :
  ∃ db' res query,
    updateTableSchema healthy emptyStore "content_piece"
      [Samples.column "title" "TEXT"] = (db', res) ∧
    query = alterQuery "content_piece" (columnClause <$> [Samples.column "title" "TEXT"]) ∧
    statements db' = statements emptyStore ++ [query] ∧
    (res = None ↔ fault healthy 0 = None) ∧
    Forall (λ col, strings.Contains query (Type_ col) = true)
      [Samples.column "title" "TEXT"].
Proof.
  apply (updateTableSchema_raw_type healthy emptyStore "content_piece"
           [Samples.column "title" "TEXT"]).
  - apply validIdentifier_spec. reflexivity.
  - constructor; [|constructor]. apply validIdentifier_spec. reflexivity.
  - discriminate.
  - constructor; [|constructor]. reflexivity.
Defined.

(** C2, counterexample.  The second column is named "name; DROP TABLE x",
    which is no identifier, yet the error returned is the invalid-type
    error of the first column, which is no InvalidIdentifier. *)
Lemma invalid_name_after_invalid_type :
  (∃ col, col ∈ Samples.badTypeThenBadName ∧ ¬ Identifier (Field col)) ∧
  updateTableSchema healthy emptyStore "content_piece" Samples.badTypeThenBadName =
    (emptyStore, Some (ErrInvalidColumnType "INT;")) ∧
  isInvalidIdentifier (ErrInvalidColumnType "INT;") = false.
Proof.
  split_and!; [|reflexivity..].
  exists (Samples.column "name; DROP TABLE x" "INT"). split.
  - unfold Samples.badTypeThenBadName. set_solver.
  - apply validIdentifier_false. reflexivity.
Qed.

(** C2, as amended.  If the table name or some column name does not match
    the identifier grammar, [updateTableSchema] returns an error and leaves
    the store as it was: no statement is executed.  The error is that of
    the first check that fails, the table name being checked first and then,
    column by column in the order submitted, the name before the type:
    - a table name that is no identifier gives InvalidIdentifier (invalid
      table name), whatever the columns are;
    - otherwise the columns before the first column that fails a check are
      all well named with an accepted type, and
      -- if that column is badly named, the error is InvalidIdentifier
         (invalid column name of that column), whatever its type text is;
      -- if that column is well named, its type text is refused, a badly
         named column follows it, and the error is the invalid-type error
         of that column, which is no InvalidIdentifier.
    So the error is InvalidIdentifier exactly when the table name is bad or
    no well-named column with a refused type stands before the first badly
    named column; in particular whenever every well-named column has an
    accepted type. *)
Theorem updateTableSchema_invalid_identifier fs db tableName columns :
  ¬ Identifier tableName ∨ (∃ col, col ∈ columns ∧ ¬ Identifier (Field col)) →
  ∃ err,
    updateTableSchema fs db tableName columns = (db, Some err) ∧
    ((¬ Identifier tableName ∧ err = ErrInvalidTableName tableName) ∨
     (Identifier tableName ∧
      ∃ before col after,
        columns = before ++ col :: after ∧
        Forall (λ c, Identifier (Field c) ∧
                     strings.ContainsAny (Type_ c) typeForbidden = false) before ∧
        ((¬ Identifier (Field col) ∧
          err = ErrInvalidColumnName (Field col)) ∨
         (Identifier (Field col) ∧
          strings.ContainsAny (Type_ col) typeForbidden = true ∧
          (∃ bad, bad ∈ after ∧ ¬ Identifier (Field bad)) ∧
          err = ErrInvalidColumnType (Type_ col))))) ∧
    (isInvalidIdentifier err = true ↔
     ¬ Identifier tableName ∨
     ∃ before col after,
       columns = before ++ col :: after ∧
       Forall (λ c, Identifier (Field c) ∧
                    strings.ContainsAny (Type_ c) typeForbidden = false) before ∧
       ¬ Identifier (Field col)) ∧
    ((∀ col, col ∈ columns → Identifier (Field col) →
        strings.ContainsAny (Type_ col) typeForbidden = false) →
     isInvalidIdentifier err = true).
Proof.
  intros Hbad. unfold updateTableSchema.
  destruct (validIdentifier tableName) eqn:Ht; simpl.
  2: { apply validIdentifier_false in Ht. eexists.
       split_and!; [done|by left|by split; [left|]|done]. }
  apply validIdentifier_spec in Ht.
  destruct Hbad as [Hbad|(bad & Hin & Hbad)]; [done|].
  destruct (alterClausesFrom [] columns) as [clauses|err] eqn:Hloop.
  { apply alterClausesFrom_inl in Hloop.
    eapply Forall_forall in Hloop as [Hok _]; [|done].
    by apply validIdentifier_spec in Hok. }
  exists err. split; [done|].
  apply alterClausesFrom_rejected in Hloop
    as (before & col & after & -> & Hbefore & Hcol).
  assert (Forall (λ c, Identifier (Field c) ∧
                       strings.ContainsAny (Type_ c) typeForbidden = false) before)
    as Hbefore'.
  { eapply Forall_impl; [done|]. by intros c [?%validIdentifier_spec ?]. }
  destruct Hcol as [[Hf%validIdentifier_false ->]|(Hf%validIdentifier_spec & Hty & ->)].
  - split_and!; [|split; [|done]|done].
    + right. split; [done|]. exists before, col, after.
      split_and!; [done..|by left].
    + intros _. right. by exists before, col, after.
  - split_and!.
    + right. split; [done|]. exists before, col, after.
      split_and!; [done..|]. right. split_and!; [done..| |done].
      exists bad. split; [|done].
      apply elem_of_app in Hin as [Hin|Hin].
      { eapply Forall_forall in Hbefore' as [? _]; done. }
      apply elem_of_cons in Hin as [->|Hin]; done.
    + split; [done|]. intros [?|(before' & col' & after' & Heq & Hb' & Hc')]; [done|].
      exfalso. clear Hin Hbad bad.
      revert before' Heq Hb'.
      induction Hbefore' as [|c before [Hc _] _ IH]; intros before' Heq Hb'.
      * destruct before' as [|c' before']; simplify_eq/=; [done|].
        apply Forall_cons in Hb' as [[_ ?] _]. congruence.
      * destruct before' as [|c' before']; simplify_eq/=; [done|].
        apply Forall_cons in Hb' as [_ Hb']. inversion Hbefore; subst.
        by eapply IH.
    + intros Hall. rewrite Hall in Hty; [done|apply elem_of_split_point|done].
Qed.

Lemma updateTableSchema_invalid_identifier_witness :
  ∃ err,
    updateTableSchema healthy emptyStore "content_piece"
      [Samples.column "name; DROP TABLE x" "INT;"] = (emptyStore, Some err) ∧
    err = ErrInvalidColumnName "name; DROP TABLE x" ∧
    isInvalidIdentifier err = true.
Proof.
  destruct (updateTableSchema_invalid_identifier healthy emptyStore "content_piece"
              [Samples.column "name; DROP TABLE x" "INT;"])
    as (err & Hrun & _ & _ & Hid).
  - right. exists (Samples.column "name; DROP TABLE x" "INT;"). split.
    + apply list_elem_of_singleton. reflexivity.
    + apply validIdentifier_false. reflexivity.
  - exists err. split; [exact Hrun|]. split.
    + vm_compute in Hrun. congruence.
    + apply Hid. intros col Hin Hname.
      apply list_elem_of_singleton in Hin. subst col.
      apply validIdentifier_spec in Hname. discriminate Hname.
Defined.

Lemma string_app_assoc (s t u : string) : (s +:+ t) +:+ u = s +:+ t +:+ u.
Proof.
  induction s as [|c s IH]; [done|].
  change (String.String c (s +:+ t) +:+ u = String.String c (s +:+ t +:+ u)).
  change (String.String c ((s +:+ t) +:+ u) = String.String c (s +:+ t +:+ u)).
  by rewrite IH.
Qed.

(** Whatever the default value is, the clause holds it between two single
    quotes exactly as it was submitted. *)
Lemma columnClause_default_verbatim col d :
  Default col = sql.mkNullString d true → d ≠ "" →
  ∃ before after,
    columnClause col = before +:+ " DEFAULT '" +:+ d +:+ "'" +:+ after.
Proof.
  intros Hd Hne. unfold columnClause. rewrite Hd. simpl.
  apply String.eqb_neq in Hne. rewrite Hne. simpl.
  destruct (negb (Extra col =? "")%string).
  - eexists _, (" " +:+ Extra col).
    rewrite (string_app_assoc _ (" DEFAULT '" +:+ d +:+ "'") (" " +:+ Extra col)).
    rewrite (string_app_assoc " DEFAULT '" (d +:+ "'") (" " +:+ Extra col)).
    rewrite (string_app_assoc d "'" (" " +:+ Extra col)).
    reflexivity.
  - eexists _, "". reflexivity.
Qed.

(** Whatever the extra attribute is, the clause ends with it. *)
Lemma columnClause_extra_verbatim col :
  Extra col ≠ "" → ∃ before, columnClause col = before +:+ " " +:+ Extra col.
Proof.
  intros Hne%String.eqb_neq. unfold columnClause. rewrite Hne. simpl.
  eexists. reflexivity.
Qed.

(** C3, at the failing input.  A default value that holds a single quote
    is placed between two quotes as it came: the literal ends at the
    quote of the value, and the rest of the value is statement text. *)
Theorem default_value_not_escaped :
  updateTableSchema healthy emptyStore "content_piece" [Samples.quoteColumn] =
    (withStatement emptyStore
       "ALTER TABLE `content_piece` MODIFY COLUMN `title` TEXT NULL DEFAULT 'x'; DROP TABLE entity; -- '",
     None).
Proof. vm_compute. reflexivity. Qed.

(** C4, at the failing input.  The extra field of the form is appended to
    the clause as it came, whatever it holds. *)
Theorem extra_attribute_not_checked :
  updateSchemaHandler healthy emptyStore Samples.extraRequest =
    Some (withStatement emptyStore
            "ALTER TABLE `content_piece` MODIFY COLUMN `title` TEXT NULL ; DROP TABLE entity",
          http.Redirect "/schema" 302).
Proof. vm_compute. reflexivity. Qed.

(** ** The ordered read *)

Lemma elem_of_pieceEdges db id k c :
  (k, c) ∈ pieceEdges db id ↔ content_piece_contlets db !! (id, k) = Some c.
Proof.
  unfold pieceEdges. rewrite list_elem_of_omap. split.
  - intros ([[p k'] c'] & Hin%elem_of_map_to_list & Hsel).
    unfold edgeOfPiece in Hsel. simpl in Hsel. case_decide; simplify_eq. done.
  - intros Hlook. exists ((id, k), c). split; [by apply elem_of_map_to_list|].
    unfold edgeOfPiece. simpl. by rewrite decide_True.
Qed.

(** The sort keys of the edges of a piece are pairwise distinct: they are
    part of the primary key. *)
Lemma edges_keys_NoDup id (rows : list (Z * Z * Z)) :
  NoDup (rows.*1) → NoDup ((omap (edgeOfPiece id) rows).*1).
Proof.
  induction rows as [|[[p k] c] rows IH]; simpl; [constructor|].
  intros [Hnotin Hrest]%NoDup_cons. unfold edgeOfPiece at 1. simpl.
  case_decide as Hp; [|by apply IH]. subst p. simpl.
  apply NoDup_cons. split; [|by apply IH].
  intros ([k' c'] & Hk & ([[p2 k2] c2] & Hin & Hsel)%list_elem_of_omap)%list_elem_of_fmap.
  simpl in Hk. subst k'. unfold edgeOfPiece in Hsel. simpl in Hsel.
  case_decide; simplify_eq. apply Hnotin.
  apply list_elem_of_fmap. eexists. split; [|exact Hin]. done.
Qed.

Lemma pieceEdges_keys_NoDup db id : NoDup ((pieceEdges db id).*1).
Proof. apply edges_keys_NoDup, NoDup_fst_map_to_list. Qed.

Global Instance bySortOrder_total : Total bySortOrder.
Proof. intros a b. unfold bySortOrder. lia. Qed.

Global Instance bySortOrder_trans : Transitive bySortOrder.
Proof. intros a b c. unfold bySortOrder. lia. Qed.

(** Ascending order on distinct keys is strictly ascending order. *)
Lemma StronglySorted_strict (edges : list (Z * Z)) :
  StronglySorted bySortOrder edges → NoDup (edges.*1) →
  StronglySorted (λ a b, (a.1 < b.1)%Z) edges.
Proof.
  induction 1 as [|e edges Hsorted IH Hall]; [constructor|].
  simpl. intros [Hnotin Hnodup]%NoDup_cons.
  constructor; [by apply IH|].
  apply Forall_forall. intros e' Hin.
  eapply Forall_forall in Hall; [|done]. unfold bySortOrder in Hall.
  assert (e.1 ≠ e'.1); [|lia].
  intros Heq. apply Hnotin. rewrite Heq. by apply list_elem_of_fmap_2.
Qed.

Lemma scanContlet_ID row : ContletDetail.ID (scanContlet row) = row_contlet_id row.
Proof.
  unfold scanContlet.
  repeat match goal with |- context [if ?b then _ else _] => destruct b end; done.
Qed.

(** The join followed by the scan is the probe by priority. *)
Lemma scanContlet_joinContlet db c : scanContlet (joinContlet db c) = byPriority db c.
Proof.
  unfold scanContlet, joinContlet, byPriority.
  destruct (contlet_paragraph db !! c) as [text|]; [done|].
  destruct (contlet_image db !! c) as [[src [alt|]]|]; [done..|].
  destruct (contlet_heading db !! c) as [[text level]|]; done.
Qed.

(** The read succeeds as soon as the piece row is there with a title and
    the connection holds. *)
Lemma getPieceByID_found fs db id row title :
  fault fs 0 = None → fault fs 1 = None →
  content_piece db !! id = Some row → cp_title row = Some title →
  getPieceByID fs db id =
    inl (PieceDetail.mk id (cp_class row) title
           ((λ e, byPriority db e.2) <$> merge_sort bySortOrder (pieceEdges db id))).
Proof.
  intros Hf0 Hf1 Hrow Htitle. unfold getPieceByID, queryContlets.
  rewrite Hf0, Hf1, Hrow, Htitle. do 2 f_equal.
  rewrite <-list_fmap_compose. apply list_fmap_ext.
  intros _ e _. apply scanContlet_joinContlet.
Qed.

Local Open Scope Z_scope.

(** The errors of the read: the piece row is absent, its title is NULL,
    or the connection failed.  No other error is ever built. *)
Lemma getPieceByID_errors fs db id err :
  getPieceByID fs db id = inr err →
  (err = ErrNoRows ∧ content_piece db !! id = None) ∨
  err = ErrScanNull 2 "title" ∨
  fault fs 0 = Some err ∨ fault fs 1 = Some err.
Proof.
  unfold getPieceByID.
  destruct (fault fs 0) as [e0|]; [intros [= <-]; auto|].
  destruct (content_piece db !! id) as [row|]; [|intros [= <-]; auto].
  destruct (cp_title row); [|intros [= <-]; auto].
  destruct (fault fs 1) as [e1|]; [intros [= <-]; auto|done].
Qed.

(** C5, counterexample.  Contlet 7 is in no variant table and contlet 8 is
    in two; the read of the piece succeeds, with 7 as "unknown" and 8 as a
    paragraph. *)
Lemma unresolved_contlets_are_classified :
  variantMatches Samples.unresolvedStore 7 = 0%nat ∧
  variantMatches Samples.unresolvedStore 8 = 2%nat ∧
  getPieceByID healthy Samples.unresolvedStore 1 =
    inl (PieceDetail.mk 1 "blog_post" "About This System"
           [ContletDetail.mk 7 "unknown" "" "" "" 0;
            ContletDetail.mk 8 "paragraph" "This system is built on MariaDB and Go."
              "" "" 0]).
Proof. split_and!; vm_compute; reflexivity. Qed.

(** C5, as amended.  A contlet id that matches a row in zero variant
    tables, or in more than one, does not make the ordered read fail: when
    the piece row is there with a title and the connection holds, the read
    returns the piece, and in it such a contlet is classified "unknown"
    (no match) or by the first table that matches in the order paragraph,
    image, heading (several matches). *)
Theorem getPieceByID_no_integrity_error fs db id row title :
  fault fs 0 = None → fault fs 1 = None →
  content_piece db !! id = Some row → cp_title row = Some title →
  ∃ piece,
    getPieceByID fs db id = inl piece ∧
    ∀ k c,
      content_piece_contlets db !! (id, k) = Some c →
      variantMatches db c ≠ 1%nat →
      ∃ cd, cd ∈ PieceDetail.Contlets piece ∧
        ContletDetail.ID cd = c ∧
        ContletDetail.Class cd =
          if variantMatches db c is 0%nat then "unknown"
          else if contlet_paragraph db !! c is Some _ then "paragraph"
          else "image".
Proof.
  intros Hf0 Hf1 Hrow Htitle.
  rewrite (getPieceByID_found fs db id row title) by done.
  eexists. split; [done|]. simpl. intros k c Hedge Hmatches.
  exists (byPriority db c). split_and!.
  - apply list_elem_of_fmap. exists (k, c). split; [done|].
    rewrite merge_sort_Permutation. by apply elem_of_pieceEdges.
  - unfold byPriority. by repeat case_match.
  - revert Hmatches. unfold variantMatches, byPriority.
    repeat case_match; simpl; done.
Qed.

Lemma getPieceByID_no_integrity_error_witness :
  ∃ piece,
    getPieceByID healthy Samples.unresolvedStore 1 = inl piece ∧
    ∃ cd, cd ∈ PieceDetail.Contlets piece ∧
      ContletDetail.ID cd = 7 ∧ ContletDetail.Class cd = "unknown".
Proof.
  destruct (getPieceByID_no_integrity_error healthy Samples.unresolvedStore 1
              (mkContentPieceRow "blog_post" (Some "About This System"))
              "About This System") as (piece & Hread & Hall);
    [reflexivity..|].
  exists piece. split; [exact Hread|].
  apply (Hall 100 7); [reflexivity|]. vm_compute. discriminate.
Defined.

(** C10.  When the piece row is there with a title and the connection
    holds, the ordered read returns the piece without error, and its
    contlets are exactly the records that probing the variant tables in
    the order paragraph, image, heading gives for the contlet ids of the
    edges of the piece: an id in several tables gets the fields of the
    first of them alone, an id in none gets "unknown" and empty fields. *)
Theorem getPieceByID_priority fs db id row title :
  fault fs 0 = None → fault fs 1 = None →
  content_piece db !! id = Some row → cp_title row = Some title →
  ∃ piece,
    getPieceByID fs db id = inl piece ∧
    (∀ k c, content_piece_contlets db !! (id, k) = Some c →
            byPriority db c ∈ PieceDetail.Contlets piece) ∧
    (∀ cd, cd ∈ PieceDetail.Contlets piece →
           cd = byPriority db (ContletDetail.ID cd) ∧
           ∃ k, content_piece_contlets db !! (id, k) = Some (ContletDetail.ID cd)) ∧
    (∀ c text, contlet_paragraph db !! c = Some text →
               byPriority db c = ContletDetail.mk c "paragraph" text "" "" 0) ∧
    (∀ c img, contlet_paragraph db !! c = None → contlet_image db !! c = Some img →
              byPriority db c =
                ContletDetail.mk c "image" "" (img_src img) (default "" (img_alt_text img)) 0) ∧
    (∀ c, variantMatches db c = 0%nat →
          byPriority db c = ContletDetail.mk c "unknown" "" "" "" 0).
Proof.
  intros Hf0 Hf1 Hrow Htitle.
  rewrite (getPieceByID_found fs db id row title) by done.
  eexists. split; [done|]. simpl. split_and!.
  - intros k c Hedge. apply list_elem_of_fmap. exists (k, c). split; [done|].
    rewrite merge_sort_Permutation. by apply elem_of_pieceEdges.
  - intros cd ([k c] & -> & Hin)%list_elem_of_fmap. simpl.
    rewrite merge_sort_Permutation in Hin. apply elem_of_pieceEdges in Hin.
    assert (ContletDetail.ID (byPriority db c) = c) as ->.
    { unfold byPriority. by repeat case_match. }
    split; [done|by exists k].
  - intros c text Hp. unfold byPriority. by rewrite Hp.
  - intros c img Hp Hi. unfold byPriority. by rewrite Hp, Hi.
  - intros c. unfold variantMatches, byPriority. by repeat case_match.
Qed.

Lemma getPieceByID_priority_witness :
  ∃ piece,
    getPieceByID healthy Samples.unresolvedStore 1 = inl piece ∧
    byPriority Samples.unresolvedStore 8 ∈ PieceDetail.Contlets piece ∧
    byPriority Samples.unresolvedStore 8 =
      ContletDetail.mk 8 "paragraph" "This system is built on MariaDB and Go." "" "" 0.
Proof.
  destruct (getPieceByID_priority healthy Samples.unresolvedStore 1
              (mkContentPieceRow "blog_post" (Some "About This System"))
              "About This System") as (piece & Hread & Hin & _ & Hpara & _);
    [reflexivity..|].
  exists piece. split_and!; [exact Hread|by apply (Hin 200 8)|by apply Hpara].
Defined.

(** C7.  The ordered read returns the contlets of the composition edges
    of the piece in ascending order of sort key: the ids of the contlets
    returned are those of a list of edges that is strictly ascending in the
    sort key and holds exactly the edges of the piece.  After contlets 10,
    11 and 12 are attached at the keys 100, 200 and 300 and then contlet 13
    at the key 150, the read returns 10, 13, 11, 12, the order of the keys
    100, 150, 200, 300. *)
Theorem getPieceByID_ordered :
  (∀ fs db id row title,
     fault fs 0 = None → fault fs 1 = None →
     content_piece db !! id = Some row → cp_title row = Some title →
     ∃ piece (edges : list (Z * Z)),
       getPieceByID fs db id = inl piece ∧
       ContletDetail.ID <$> PieceDetail.Contlets piece = edges.*2 ∧
       StronglySorted (λ a b, (a.1 < b.1)%Z) edges ∧
       ∀ k c, (k, c) ∈ edges ↔ content_piece_contlets db !! (id, k) = Some c) ∧
  (∃ piece,
     getPieceByID healthy Samples.attachedStore 1 = inl piece ∧
     ContletDetail.ID <$> PieceDetail.Contlets piece = [10; 13; 11; 12]%Z ∧
     content_piece_contlets Samples.attachedStore !! (1, 100)%Z = Some 10%Z ∧
     content_piece_contlets Samples.attachedStore !! (1, 150)%Z = Some 13%Z ∧
     content_piece_contlets Samples.attachedStore !! (1, 200)%Z = Some 11%Z ∧
     content_piece_contlets Samples.attachedStore !! (1, 300)%Z = Some 12%Z).
Proof.
  split.
  - intros fs db id row title Hf0 Hf1 Hrow Htitle.
    rewrite (getPieceByID_found fs db id row title) by done.
    eexists _, (merge_sort bySortOrder (pieceEdges db id)).
    split; [done|]. simpl. split_and!.
    + rewrite <-list_fmap_compose. apply list_fmap_ext. intros _ [k c] _. simpl.
      unfold byPriority. by repeat case_match.
    + apply StronglySorted_strict.
      * apply StronglySorted_merge_sort; apply _.
      * rewrite merge_sort_Permutation. apply pieceEdges_keys_NoDup.
    + intros k c. rewrite merge_sort_Permutation. apply elem_of_pieceEdges.
  - eexists. split_and!; vm_compute; reflexivity.
Qed.

Lemma getPieceByID_ordered_witness :
  ∃ piece (edges : list (Z * Z)),
    getPieceByID healthy Samples.attachedStore 1 = inl piece ∧
    ContletDetail.ID <$> PieceDetail.Contlets piece = edges.*2 ∧
    StronglySorted (λ a b, (a.1 < b.1)%Z) edges ∧
    ∀ k c, (k, c) ∈ edges ↔
           content_piece_contlets Samples.attachedStore !! (1, k)%Z = Some c.
Proof.
  apply (proj1 getPieceByID_ordered healthy Samples.attachedStore 1%Z
           (mkContentPieceRow "blog_post" (Some "About This System"))
           "About This System"); reflexivity.
Defined.

(** ** Creating and updating content pieces *)

Lemma sameRows_refl db : sameRows db db.
Proof. by repeat split. Qed.

Lemma sameRows_withAutoIncrement db next : sameRows db (withAutoIncrement db next).
Proof. by repeat split. Qed.

(** A branch of [createContentPiece] that ends in an error. *)
Ltac failed_create :=
  eexists _, _; split; [reflexivity|]; split;
  [split; [first [apply sameRows_refl | apply sameRows_withAutoIncrement]|done]
  |intros _; eauto].

(** C6.  [createContentPiece] is all or nothing.  When it returns an id,
    the id is the one the entity table allocated, and the store holds both
    the entity and the class row under it.  When it returns an error, the
    rows of the store are as they were: the entity allocated by the failed
    call is not in the store.  And it returns an error whenever the
    insertion of the class row fails (by a fault of the connection or a
    duplicate key) or the commit fails. *)
Theorem createContentPiece_atomic fs db title class :
  ∃ db' res,
    createContentPiece fs db title class = (db', res) ∧
    match res with
    | inl id =>
        id = entity_auto_increment db ∧
        entity db' = {[id]} ∪ entity db ∧
        content_piece db' =
          <[id := mkContentPieceRow class (Some title)]> (content_piece db)
    | inr _ =>
        sameRows db db' ∧ (entity_auto_increment db ∉ entity db →
                           entity_auto_increment db ∉ entity db')
    end ∧
    (is_Some (fault fs 2) ∨ is_Some (fault fs 3) ∨
     is_Some (content_piece db !! entity_auto_increment db) →
     ∃ err, res = inr err).
Proof.
  unfold createContentPiece, dbBegin, txInsertEntity, txInsertContentPiece,
    txCommit, txRollback.
  destruct (fault fs 0) as [e0|]; simpl; [failed_create|].
  destruct (fault fs 1) as [e1|]; simpl; [failed_create|].
  destruct (fault fs 2) as [e2|]; simpl; [failed_create|].
  destruct (content_piece db !! entity_auto_increment db) as [old|] eqn:Hold;
    simpl; [failed_create|].
  rewrite decide_True by set_solver.
  destruct (fault fs 3) as [e3|]; simpl; [failed_create|].
  eexists _, _. split; [done|]. split; [done|].
  intros [[? [=]]|[[? [=]]|[? [=]]]].
Qed.

Lemma createContentPiece_atomic_witness :
  ∃ db' err,
    createContentPiece [None; None; None; Some (ErrDriver "commit failed")]
      emptyStore "About This System" "blog_post" = (db', inr err) ∧
    sameRows emptyStore db'.
Proof.
  destruct (createContentPiece_atomic
              [None; None; None; Some (ErrDriver "commit failed")]
              emptyStore "About This System" "blog_post")
    as (db' & res & Hrun & Hres & Hfail).
  destruct Hfail as [err ->].
  - right. left. eexists. reflexivity.
  - exists db', err. split; [exact Hrun|]. apply Hres.
Defined.

(** C8, counterexample.  The store has no content piece 42, and the update
    of piece 42 reports success. *)
Lemma update_of_missing_piece_succeeds :
  content_piece emptyStore !! 42 = None ∧
  updateContentPiece healthy emptyStore 42 "About This System" "blog_post" =
    (emptyStore, None).
Proof. split; vm_compute; reflexivity. Qed.

Lemma withContentPiece_same db : withContentPiece db (content_piece db) = db.
Proof. by destruct db. Qed.

(** C8, as amended.  For an id with no class row, updating a content piece
    changes nothing in the store and reports success when the store runs
    the statement; it reports an error only when the connection fails, and
    that error wraps the failure of the driver: none is NotFound. *)
Theorem updateContentPiece_missing fs db id title class :
  content_piece db !! id = None →
  (fault fs 0 = None → updateContentPiece fs db id title class = (db, None)) ∧
  (∀ db' err, updateContentPiece fs db id title class = (db', Some err) →
              db' = db ∧ isNotFound err = false ∧
              ∃ cause, fault fs 0 = Some cause ∧ err = ErrUpdatePiece id cause).
Proof.
  intros Hmissing. unfold updateContentPiece. split.
  - intros ->. f_equal.
    rewrite alter_id' by done. apply withContentPiece_same.
  - intros db' err. destruct (fault fs 0) as [cause|]; [|done].
    intros [= <- <-]. split_and!; [done..|]. by exists cause.
Qed.

Lemma updateContentPiece_missing_witness :
  updateContentPiece healthy emptyStore 42 "About This System" "blog_post" =
    (emptyStore, None).
Proof.
  apply (updateContentPiece_missing healthy emptyStore 42
           "About This System" "blog_post"); reflexivity.
Defined.

(** ** Listing tags *)

Section tag_order.
Context (coll : relation string).
Context `{!RelDecision coll, !Total coll, !Transitive coll}.

Global Instance tagOrder_total : Total (tagOrder coll).
Proof.
  intros a b. unfold tagOrder.
  destruct (decide (coll (Tag.TaxonomyName a) (Tag.TaxonomyName b))) as [Hab|Hab];
    destruct (decide (coll (Tag.TaxonomyName b) (Tag.TaxonomyName a))) as [Hba|Hba].
  - destruct (total coll (Tag.Value a) (Tag.Value b)); [left|right]; done.
  - left. done.
  - right. done.
  - destruct (total coll (Tag.TaxonomyName a) (Tag.TaxonomyName b)); done.
Qed.

Global Instance tagOrder_trans : Transitive (tagOrder coll).
Proof.
  intros a b c [Hab Hvab] [Hbc Hvbc]. split; [by etrans|].
  intros Hca. etrans; [apply Hvab|apply Hvbc]; by etrans.
Qed.
End tag_order.

Lemma elem_of_tagRows db t :
  t ∈ tagRows db ↔
  ∃ row name,
    tag db !! Tag.ID t = Some row ∧
    taxonomy db !! tag_taxonomy_id row = Some name ∧
    t = Tag.mk (Tag.ID t) (tag_value row) name.
Proof.
  unfold tagRows. rewrite list_elem_of_omap. split.
  - intros ([id row] & Hin%elem_of_map_to_list & Hjoin).
    unfold joinTag in Hjoin. simpl in Hjoin.
    destruct (taxonomy db !! tag_taxonomy_id row) as [name|] eqn:Hname;
      simplify_eq/=. by exists row, name.
  - intros (row & name & Hrow & Hname & Ht).
    exists (Tag.ID t, row). split; [by apply elem_of_map_to_list|].
    unfold joinTag. simpl. rewrite Hname. simpl. by rewrite Ht.
Qed.

(** A tag is listed once: the join keeps the primary key of the tag. *)
Lemma joined_ids_NoDup db (rows : list (Z * TagRow)) :
  NoDup (rows.*1) → NoDup (Tag.ID <$> omap (joinTag db) rows).
Proof.
  induction rows as [|[id row] rows IH]; simpl; [constructor|].
  intros [Hnotin Hrest]%NoDup_cons. unfold joinTag at 1. simpl.
  destruct (taxonomy db !! tag_taxonomy_id row) as [name|]; simpl; [|by apply IH].
  apply NoDup_cons. split; [|by apply IH].
  intros (t & Hid & ([id' row'] & Hin & Hjoin)%list_elem_of_omap)%list_elem_of_fmap.
  unfold joinTag in Hjoin. simpl in Hjoin.
  destruct (taxonomy db !! tag_taxonomy_id row'); simplify_eq/=.
  apply Hnotin. apply list_elem_of_fmap. eexists. split; [|exact Hin]. done.
Qed.

(** C9.  With a collation that is a total preorder and a connection that
    holds, listing all tags returns every tag joined with the name of its
    taxonomy, once each, ordered first by taxonomy name and then by tag
    value: of two tags of the list, the earlier has the taxonomy name that
    is no greater, and if the two names are equal under the collation the
    earlier has the value that is no greater. *)
Theorem getAllTags_ordered (coll : relation string)
    `{!RelDecision coll, !Total coll, !Transitive coll} fs db :
  fault fs 0 = None →
  ∃ tags,
    getAllTags coll fs db = inl tags ∧
    (∀ t, t ∈ tags ↔
          ∃ row name,
            tag db !! Tag.ID t = Some row ∧
            taxonomy db !! tag_taxonomy_id row = Some name ∧
            t = Tag.mk (Tag.ID t) (tag_value row) name) ∧
    NoDup (Tag.ID <$> tags) ∧
    (∀ (i j : nat) a b,
       (i < j)%nat → tags !! i = Some a → tags !! j = Some b →
       coll (Tag.TaxonomyName a) (Tag.TaxonomyName b) ∧
       (coll (Tag.TaxonomyName b) (Tag.TaxonomyName a) →
        coll (Tag.Value a) (Tag.Value b))).
Proof.
  intros Hf. unfold getAllTags. rewrite Hf.
  eexists. split; [done|]. split_and!.
  - intros t. rewrite merge_sort_Permutation. apply elem_of_tagRows.
  - rewrite merge_sort_Permutation. apply joined_ids_NoDup, NoDup_fst_map_to_list.
  - pose proof (StronglySorted_merge_sort (tagOrder coll) (tagRows db)) as Hsorted.
    revert Hsorted. generalize (merge_sort (tagOrder coll) (tagRows db)).
    intros tags Hsorted. induction Hsorted as [|t tags Hsorted IH Hall].
    + intros i j a b _ Hi. by rewrite lookup_nil in Hi.
    + intros [|i] [|j] a b Hij Hi Hj; simplify_eq/=; try lia.
      * eapply Forall_forall in Hall; [exact Hall|].
        by eapply list_elem_of_lookup_2.
      * eapply (IH i j); [lia|done..].
Qed.

Lemma getAllTags_ordered_witness :
  ∃ tags,
    getAllTags String.le healthy Samples.taggedStore = inl tags ∧
    Tag.ID <$> tags = [4; 5; 3].
Proof.
  destruct (getAllTags_ordered String.le healthy Samples.taggedStore)
    as (tags & Hread & _); [reflexivity|].
  exists tags. split; [exact Hread|].
  revert Hread. vm_compute. intros [= <-]. reflexivity.
Defined.

(** * Further properties of database.go and handlers.go *)

(** ** The listings *)

Lemma scanRows_all {A B} (scan : A → B + error) (f : A → B) acc rows :
  (∀ row, row ∈ rows → scan row = inl (f row)) →
  scanRows scan acc rows = inl (acc ++ (f <$> rows)).
Proof.
  revert acc. induction rows as [|row rest IH]; intros acc Hscan; simpl.
  - by rewrite app_nil_r.
  - rewrite Hscan by apply list_elem_of_here.
    rewrite IH, <-app_assoc; [done|].
    intros r Hr. apply Hscan. by apply list_elem_of_further.
Qed.

Lemma scanRows_error {A B} (scan : A → B + error) acc rows bad err :
  bad ∈ rows → scan bad = inr err →
  (∀ row err', row ∈ rows → scan row = inr err' → err' = err) →
  scanRows scan acc rows = inr err.
Proof.
  revert acc. induction rows as [|row rest IH]; intros acc Hin Hbad Hsame.
  - by apply elem_of_nil in Hin.
  - simpl. destruct (scan row) as [x|err'] eqn:Hrow.
    + apply IH.
      * apply elem_of_cons in Hin as [->|Hin]; [congruence|done].
      * done.
      * intros r e Hr. apply Hsame. by apply list_elem_of_further.
    + f_equal. eapply Hsame; [apply list_elem_of_here|done].
Qed.

Global Instance byIdDesc_total {A} : Total (@byIdDesc A).
Proof. intros a b. unfold byIdDesc. lia. Qed.

Global Instance byIdDesc_trans {A} : Transitive (@byIdDesc A).
Proof. intros a b c. unfold byIdDesc. lia. Qed.

(** Rows with pairwise distinct ids, once ordered by id descending, are
    strictly descending. *)
Lemma sorted_desc_strict {A} (rows : list (Z * A)) :
  NoDup (rows.*1) →
  StronglySorted (λ a b, (b.1 < a.1)%Z) (merge_sort byIdDesc rows).
Proof.
  intros Hnodup.
  assert (NoDup ((merge_sort byIdDesc rows).*1)) as Hnodup'.
  { by rewrite merge_sort_Permutation. }
  pose proof (StronglySorted_merge_sort byIdDesc rows) as Hsorted.
  revert Hsorted Hnodup'. generalize (merge_sort byIdDesc rows). clear.
  induction 1 as [|row rows Hsorted IH Hall]; [constructor|].
  simpl. intros [Hnotin Hnodup]%NoDup_cons.
  constructor; [by apply IH|].
  apply Forall_forall. intros row' Hin.
  eapply Forall_forall in Hall; [|done]. unfold byIdDesc in Hall.
  assert (row.1 ≠ row'.1); [|lia].
  intros Heq. apply Hnotin. rewrite Heq. by apply list_elem_of_fmap_2.
Qed.

(** X1.  When the connection holds and every content piece has a title,
    [getAllContentPieces] returns every row of content_piece, with its id,
    class and title, in strictly descending order of id. *)
Theorem getAllContentPieces_listing fs db :
  fault fs 0 = None →
  (∀ id row, content_piece db !! id = Some row → is_Some (cp_title row)) →
  ∃ pieces,
    getAllContentPieces fs db = inl pieces ∧
    (∀ p, p ∈ pieces ↔
          ∃ row, content_piece db !! ContentPiece.ID p = Some row ∧
                 ContentPiece.Class p = cp_class row ∧
                 cp_title row = Some (ContentPiece.Title p)) ∧
    StronglySorted (λ a b, (ContentPiece.ID b < ContentPiece.ID a)%Z) pieces.
Proof.
  intros Hf Htitles. unfold getAllContentPieces. rewrite Hf.
  set (rows := merge_sort byIdDesc (map_to_list (content_piece db))).
  set (f := λ row : Z * ContentPieceRow,
              ContentPiece.mk row.1 (cp_class row.2) (default "" (cp_title row.2))).
  assert (∀ row, row ∈ rows ↔ content_piece db !! row.1 = Some row.2) as Hrows.
  { intros [id row]. unfold rows. rewrite merge_sort_Permutation.
    apply elem_of_map_to_list. }
  rewrite (scanRows_all scanContentPiece f).
  2: { intros [id row] Hin%Hrows. simpl in Hin.
       destruct (Htitles id row Hin) as [title Htitle].
       unfold scanContentPiece, f. simpl. by rewrite Htitle. }
  eexists. split; [done|]. simpl. split.
  - intros p. rewrite list_elem_of_fmap. split.
    + intros ([id row] & -> & Hin%Hrows). simpl in *. exists row.
      destruct (Htitles id row Hin) as [title Htitle]. by rewrite Htitle.
    + intros (row & Hrow & Hclass & Htitle).
      exists (ContentPiece.ID p, row). split; [|by apply Hrows].
      unfold f. simpl. rewrite Htitle, <-Hclass. by destruct p.
  - apply (StronglySorted_fmap f (λ a b, (b.1 < a.1)%Z)); [done|].
    apply sorted_desc_strict, NoDup_fst_map_to_list.
Qed.

Lemma getAllContentPieces_listing_witness :
  ∃ pieces,
    getAllContentPieces healthy Samples.attachedStore = inl pieces ∧
    ContentPiece.ID <$> pieces = [1].
Proof.
  destruct (getAllContentPieces_listing healthy Samples.attachedStore)
    as (pieces & Hread & _); [reflexivity| |].
  - intros id row Hrow.
    change (content_piece Samples.attachedStore) with
      ({[1%Z := mkContentPieceRow "blog_post" (Some "About This System")]}
         : gmap Z ContentPieceRow) in Hrow.
    apply lookup_singleton_Some in Hrow as [_ <-]. by eexists.
  - exists pieces. split; [exact Hread|].
    revert Hread. vm_compute. intros [= <-]. reflexivity.
Defined.

(** X2.  One content piece whose title is NULL makes the whole listing
    fail: [getAllContentPieces] returns the scan error and no piece at
    all. *)
Theorem getAllContentPieces_null_title fs db id row :
  fault fs 0 = None →
  content_piece db !! id = Some row → cp_title row = None →
  getAllContentPieces fs db = inr (ErrScanNull 2 "title").
Proof.
  intros Hf Hrow Hnull. unfold getAllContentPieces. rewrite Hf.
  apply (scanRows_error _ _ _ (id, row)).
  - rewrite merge_sort_Permutation. by apply elem_of_map_to_list.
  - unfold scanContentPiece. simpl. by rewrite Hnull.
  - intros r err' _. unfold scanContentPiece. by destruct (cp_title r.2); intros [=].
Qed.

Lemma getAllContentPieces_null_title_witness :
  getAllContentPieces healthy MoreSamples.nullTitleStore = inr (ErrScanNull 2 "title").
Proof.
  apply (getAllContentPieces_null_title healthy MoreSamples.nullTitleStore 2
           (mkContentPieceRow "tweet" None)); reflexivity.
Defined.

Lemma contletSummary_Some db id row :
  contletSummary db id = Some row ↔
  (0 < variantMatches db id)%nat ∧ row = (id, Some (summaryOf (byPriority db id))).
Proof.
  unfold contletSummary, variantMatches, byPriority, summaryOf.
  destruct (contlet_paragraph db !! id) as [text|];
    destruct (contlet_image db !! id) as [img|];
    destruct (contlet_heading db !! id) as [h|]; simpl;
    (split; [intros Heq; simplify_eq; (split; [lia|done])
           | intros [? ->]; first [done|lia]]).
Qed.

(** X3.  When the connection holds, [getAllContlets] never fails.  It
    lists, in strictly descending order of id, exactly the entities that
    have a row in some variant table; for each it shows the content that
    the detail read of a piece shows for that contlet (paragraph before
    image before heading), and it leaves the class empty. *)
Theorem getAllContlets_listing fs db :
  fault fs 0 = None →
  ∃ contlets,
    getAllContlets fs db = inl contlets ∧
    (∀ c, c ∈ contlets ↔
          Contlet.ID c ∈ entity db ∧
          (0 < variantMatches db (Contlet.ID c))%nat ∧
          Contlet.Class c = "" ∧
          Contlet.Content c = summaryOf (byPriority db (Contlet.ID c))) ∧
    StronglySorted (λ a b, Contlet.ID b < Contlet.ID a) contlets.
Proof.
  intros Hf. unfold getAllContlets. rewrite Hf.
  set (rows := merge_sort byIdDesc (omap (contletSummary db) (elements (entity db)))).
  set (f := λ row : Z * option string, Contlet.mk row.1 "" (default "" row.2)).
  assert (∀ row, row ∈ rows ↔
            row.1 ∈ entity db ∧ (0 < variantMatches db row.1)%nat ∧
            row.2 = Some (summaryOf (byPriority db row.1))) as Hrows.
  { intros [id content]. unfold rows. rewrite merge_sort_Permutation.
    rewrite list_elem_of_omap. simpl. split.
    - intros (id' & Hin%elem_of_elements & Hrow).
      apply contletSummary_Some in Hrow as [Hm [= -> ->]]. done.
    - intros (Hin & Hm & ->). exists id. rewrite elem_of_elements.
      split; [done|]. by apply contletSummary_Some. }
  rewrite (scanRows_all scanContlet_summary f).
  2: { intros [id content] (_ & _ & Hc)%Hrows. simpl in Hc. subst content. done. }
  eexists. split; [done|]. simpl. split.
  - intros c. rewrite list_elem_of_fmap. split.
    + intros ([id content] & -> & (Hin & Hm & Hc)%Hrows). simpl in *.
      subst content. done.
    + intros (Hin & Hm & Hclass & Hcontent).
      exists (Contlet.ID c, Some (Contlet.Content c)). split.
      * unfold f. simpl. rewrite <-Hclass. by destruct c.
      * apply Hrows. simpl. by rewrite Hcontent.
  - apply (StronglySorted_fmap f (λ a b, b.1 < a.1)); [done|].
    apply sorted_desc_strict.
    assert (∀ ids : list Z, NoDup ids → NoDup ((omap (contletSummary db) ids).*1))
      as Hnodup; [|apply Hnodup, NoDup_elements].
    induction 1 as [|id ids Hnotin Hnodup IH]; simpl; [constructor|].
    destruct (contletSummary db id) as [row|] eqn:Hrow; [|done].
    apply contletSummary_Some in Hrow as [_ ->]. simpl.
    constructor; [|done].
    intros ([id' c'] & Hid & (id2 & Hin2 & Hrow2)%list_elem_of_omap)%list_elem_of_fmap.
    apply contletSummary_Some in Hrow2 as [_ [= -> ->]]. simpl in Hid. by subst.
Qed.

Lemma getAllContlets_listing_witness :
  getAllContlets healthy MoreSamples.seededStore =
    inl [Contlet.mk 5 ""
           "This system is built on MariaDB and Go, following a pragmatic design.";
         Contlet.mk 4 "" "Core Philosophy"].
Proof.
  destruct (getAllContlets_listing healthy MoreSamples.seededStore)
    as (contlets & Hread & _); [reflexivity|].
  rewrite Hread. revert Hread. vm_compute. intros [= <-]. reflexivity.
Defined.

(** ** Sequences of writes: ids and consistency *)

(** What a call of [createContentPiece] does to the store, by outcome. *)
Lemma createContentPiece_cases fs db title class :
  let id := entity_auto_increment db in
  (∃ err, createContentPiece fs db title class = (db, inr err)) ∨
  (∃ err, createContentPiece fs db title class =
            (withAutoIncrement db (id + 1), inr err)) ∨
  (createContentPiece fs db title class =
     (withAutoIncrement
        (withContentPiece (withEntity db id)
           (<[id := mkContentPieceRow class (Some title)]> (content_piece db)))
        (id + 1), inl id) ∧
   content_piece db !! id = None).
Proof.
  unfold createContentPiece, dbBegin, txInsertEntity, txInsertContentPiece,
    txCommit, txRollback. simpl.
  destruct (fault fs 0); simpl; [left; eauto|].
  destruct (fault fs 1); simpl; [left; eauto|].
  destruct (fault fs 2); simpl; [right; left; eauto|].
  destruct (content_piece db !! entity_auto_increment db) eqn:Hold; simpl;
    [right; left; eauto|].
  rewrite decide_True by set_solver.
  destruct (fault fs 3); simpl; [right; left; eauto|].
  right. right. done.
Qed.

Lemma afterWrite_counter db w :
  entity_auto_increment db ≤ entity_auto_increment (afterWrite db w).
Proof.
  destruct w as [fs title class|fs id title class|inlineFK fs id|p c k|fs t cols];
    simpl.
  - destruct (createContentPiece_cases fs db title class)
      as [[err ->]|[[err ->]|[-> _]]]; simpl; lia.
  - unfold updateContentPiece. destruct (fault fs 0); simpl; lia.
  - unfold deleteContentPiece, dbDeleteEntity.
    destruct (fault fs 0); simpl; [lia|].
    repeat case_match; simplify_eq/=; lia.
  - unfold insertPieceContlet. destruct (_ !! _); simpl; lia.
  - unfold updateTableSchema, dbExecDDL.
    repeat case_match; simplify_eq/=; lia.
Qed.

Lemma afterWrites_counter db ws :
  entity_auto_increment db ≤ entity_auto_increment (afterWrites db ws).
Proof.
  revert db. induction ws as [|w ws IH]; intros db; simpl; [lia|].
  etrans; [apply (afterWrite_counter db w)|apply IH].
Qed.

(** X4.  As long as the schema is not changed, the ids that
    [createContentPiece] returns are strictly increasing: an id returned by
    a call is smaller than the id returned by any later call, whatever
    writes of rows (creations that failed or succeeded, updates, deletions,
    attachments) come in between, the values written fitting the tables of
    architecture.md.  So between two schema changes no id is returned
    twice, not even the id of a deleted piece. *)
Theorem createContentPiece_ids_increase fs1 fs2 db ws title1 class1 title2 class2
    db1 id1 db2 id2 :
  fitsSchema db (CreateContentPiece fs1 title1 class1) →
  writesFit db1 ws →
  fitsSchema (afterWrites db1 ws) (CreateContentPiece fs2 title2 class2) →
  createContentPiece fs1 db title1 class1 = (db1, inl id1) →
  createContentPiece fs2 (afterWrites db1 ws) title2 class2 = (db2, inl id2) →
  id1 < id2.
Proof.
  intros _ _ _ Hfirst Hsecond.
  destruct (createContentPiece_cases fs1 db title1 class1)
    as [[err Heq]|[[err Heq]|[Heq _]]]; rewrite Heq in Hfirst; simplify_eq.
  destruct (createContentPiece_cases fs2 (afterWrites
              (withAutoIncrement
                 (withContentPiece (withEntity db (entity_auto_increment db))
                    (<[entity_auto_increment db :=
                         mkContentPieceRow class1 (Some title1)]> (content_piece db)))
                 (entity_auto_increment db + 1)) ws) title2 class2)
    as [[err Heq2]|[[err Heq2]|[Heq2 _]]]; rewrite Heq2 in Hsecond; simplify_eq.
  match goal with
  | |- _ < entity_auto_increment (afterWrites ?d ws) =>
      pose proof (afterWrites_counter d ws) as Hmono
  end.
  simpl in Hmono. lia.
Qed.

Lemma createContentPiece_ids_increase_witness :
  ∃ db1 id1 db2 id2,
    createContentPiece healthy emptyStore "First" "blog_post" = (db1, inl id1) ∧
    createContentPiece healthy
      (afterWrites db1 [DeleteContentPiece true healthy id1;
                        CreateContentPiece [None; None; Some (ErrDriver "gone")] "x" "y"])
      "Second" "blog_post" = (db2, inl id2) ∧
    id1 < id2.
Proof.
  eexists _, _, _, _.
  assert (∀ (P Q R : Prop), P → Q → (P → Q → R) → P ∧ Q ∧ R) as Hstep by tauto.
  apply Hstep; [vm_compute; reflexivity..|].
  apply (createContentPiece_ids_increase healthy healthy emptyStore
           [DeleteContentPiece true healthy 1;
            CreateContentPiece [None; None; Some (ErrDriver "gone")] "x" "y"]);
    vm_compute; repeat split; try reflexivity; discriminate.
Defined.

Lemma entitiesConsistent_afterWrite db w :
  entitiesConsistent db → entitiesConsistent (afterWrite db w).
Proof.
  intros [Hbelow Hdom].
  destruct w as [fs title class|fs id title class|inlineFK fs id|p c k|fs t cols];
    simpl.
  - destruct (createContentPiece_cases fs db title class)
      as [[err ->]|[[err ->]|[-> _]]]; simpl.
    + done.
    + split; [|done]. simpl. intros id Hid. apply Hbelow in Hid. lia.
    + split; simpl.
      * intros id [->%elem_of_singleton|Hid%Hbelow]%elem_of_union; lia.
      * rewrite dom_insert_L. set_solver.
  - unfold updateContentPiece. destruct (fault fs 0); simpl; [done|].
    split; simpl; [done|]. by rewrite dom_alter_L.
  - unfold deleteContentPiece, dbDeleteEntity.
    destruct (fault fs 0); simpl; [done|].
    repeat case_match; simplify_eq/=; try done.
    split; simpl.
    + intros j Hj. apply Hbelow. set_solver.
    + rewrite dom_delete_L. set_solver.
  - unfold insertPieceContlet. by destruct (_ !! _).
  - unfold updateTableSchema, dbExecDDL.
    repeat case_match; simplify_eq/=; done.
Qed.

(** X5.  Every sequence of writes of rows, that is without a schema
    change and with values that fit the tables of architecture.md, keeps
    the entity table consistent: the ids of entity stay below the
    AUTO_INCREMENT counter, and every content piece stays an entity. *)
Theorem entitiesConsistent_afterWrites db ws :
  writesFit db ws →
  entitiesConsistent db → entitiesConsistent (afterWrites db ws).
Proof.
  intros _. revert db. induction ws as [|w ws IH]; intros db Hdb; simpl; [done|].
  by apply IH, entitiesConsistent_afterWrite.
Qed.

Lemma entitiesConsistent_afterWrites_witness :
  entitiesConsistent
    (afterWrites emptyStore
       [CreateContentPiece healthy "About This System" "blog_post";
        UpdateContentPiece healthy 1 "About" "page";
        DeleteContentPiece false healthy 1]).
Proof.
  apply entitiesConsistent_afterWrites;
    [vm_compute; repeat split; try reflexivity; discriminate|]. split.
  - intros id Hid. by apply elem_of_empty in Hid.
  - vm_compute. set_solver.
Defined.

Lemma pieceEdges_nil db id :
  (∀ k, content_piece_contlets db !! (id, k) = None) → pieceEdges db id = [].
Proof.
  intros Hnone. destruct (pieceEdges db id) as [|[k c] edges] eqn:Hedges; [done|].
  assert ((k, c) ∈ pieceEdges db id) as Hin by (rewrite Hedges; left).
  apply elem_of_pieceEdges in Hin. by rewrite Hnone in Hin.
Qed.

(** The creation of a piece on a consistent store, and its read. *)
Lemma createContentPiece_on_consistent fs db title class :
  entitiesConsistent db →
  (∀ n, fault fs n = None) →
  (∀ k, content_piece_contlets db !! (entity_auto_increment db, k) = None) →
  ∃ db',
    createContentPiece fs db title class = (db', inl (entity_auto_increment db)) ∧
    entitiesConsistent db' ∧
    getPieceByID fs db' (entity_auto_increment db) =
      inl (PieceDetail.mk (entity_auto_increment db) class title []).
Proof.
  intros Hdb Hfs Hedges.
  assert (content_piece db !! entity_auto_increment db = None) as Hfresh.
  { destruct Hdb as [Hbelow Hdom]. apply not_elem_of_dom.
    intros Hin%Hdom%Hbelow. lia. }
  pose proof (entitiesConsistent_afterWrite db
                (CreateContentPiece fs title class) Hdb) as Hdb'.
  simpl in Hdb'. revert Hdb'.
  unfold createContentPiece, dbBegin, txInsertEntity, txInsertContentPiece,
    txCommit, txRollback. rewrite !Hfs. simpl. rewrite Hfresh.
  rewrite decide_True by set_solver. simpl. intros Hdb'.
  eexists. split; [done|]. split; [done|].
  unfold getPieceByID, queryContlets. rewrite !Hfs. simpl.
  rewrite lookup_insert_eq. simpl.
  unfold pieceEdges at 1. simpl. fold (pieceEdges db (entity_auto_increment db)).
  by rewrite pieceEdges_nil.
Qed.


(** X6.  On a consistent store whose next id is a positive INT, on a
    connection that holds and for a title and a class that fit their
    columns (TEXT and VARCHAR(255)), [createContentPiece] succeeds: it
    returns the next id of entity, and the store it leaves is consistent
    and holds the piece, which [getPieceByID] reads back with the given
    title and class and, no edge bearing the new id, without contlets. *)
Theorem createContentPiece_then_read fs db title class :
  entitiesConsistent db →
  (∀ n, fault fs n = None) →
  (∀ k, content_piece_contlets db !! (entity_auto_increment db, k) = None) →
  0 < entity_auto_increment db ≤ INT_MAX →
  fitsTEXT title = true → fitsVARCHAR 255 class = true →
  ∃ db',
    createContentPiece fs db title class = (db', inl (entity_auto_increment db)) ∧
    entitiesConsistent db' ∧
    getPieceByID fs db' (entity_auto_increment db) =
      inl (PieceDetail.mk (entity_auto_increment db) class title []).
Proof. intros Hdb Hfs Hedges _ _ _. by apply createContentPiece_on_consistent. Qed.

Lemma createContentPiece_then_read_witness :
  ∃ db',
    createContentPiece healthy emptyStore "About This System" "blog_post" =
      (db', inl 1) ∧
    entitiesConsistent db' ∧
    getPieceByID healthy db' 1 =
      inl (PieceDetail.mk 1 "blog_post" "About This System" []).
Proof.
  apply (createContentPiece_then_read healthy emptyStore
           "About This System" "blog_post").
  - split; [intros id Hid; by apply elem_of_empty in Hid|]. vm_compute. set_solver.
  - intros n. by destruct n.
  - intros k. apply lookup_empty.
  - vm_compute. split; [reflexivity|discriminate].
  - reflexivity.
  - reflexivity.
Defined.

(** The read of a piece looks at the row of the piece, at the edges and
    at the variant tables, and at nothing else. *)
Lemma getPieceByID_ext fs db db' id :
  content_piece db' !! id = content_piece db !! id →
  content_piece_contlets db' = content_piece_contlets db →
  contlet_paragraph db' = contlet_paragraph db →
  contlet_image db' = contlet_image db →
  contlet_heading db' = contlet_heading db →
  getPieceByID fs db' id = getPieceByID fs db id.
Proof.
  intros Hrow Hedges Hp Hi Hh.
  unfold getPieceByID, queryContlets, pieceEdges, joinContlet.
  by rewrite Hrow, Hedges, Hp, Hi, Hh.
Qed.

(** X7.  Updating a content piece that exists, on a connection that
    holds and with a title and a class that fit their columns (TEXT and
    VARCHAR(255)), makes the read of that piece return the new title and
    class with the contlets it had, also when the read used to fail on a
    NULL title; the read of every other piece is as before. *)
Theorem updateContentPiece_then_read fs fs' db id row title class :
  fault fs 0 = None → fault fs' 0 = None → fault fs' 1 = None →
  content_piece db !! id = Some row →
  fitsTEXT title = true → fitsVARCHAR 255 class = true →
  ∃ db',
    updateContentPiece fs db id title class = (db', None) ∧
    getPieceByID fs' db' id =
      inl (PieceDetail.mk id class title (scanContlet <$> queryContlets db id)) ∧
    (∀ old, getPieceByID fs' db id = inl old →
            getPieceByID fs' db' id =
              inl (PieceDetail.mk id class title (PieceDetail.Contlets old))) ∧
    (∀ j, j ≠ id → getPieceByID fs' db' j = getPieceByID fs' db j).
Proof.
  intros Hf Hf0 Hf1 Hrow _ _. unfold updateContentPiece. rewrite Hf.
  eexists. split; [done|].
  assert (getPieceByID fs' (withContentPiece db
            (alter (λ _, mkContentPieceRow class (Some title)) id (content_piece db))) id =
          inl (PieceDetail.mk id class title (scanContlet <$> queryContlets db id)))
    as Hread.
  { unfold getPieceByID. rewrite Hf0, Hf1. simpl.
    rewrite lookup_alter_eq, Hrow. done. }
  split_and!.
  - done.
  - intros old Hold. rewrite Hread. unfold getPieceByID in Hold.
    rewrite Hf0, Hf1, Hrow in Hold. destruct (cp_title row); by simplify_eq.
  - intros j Hj. apply getPieceByID_ext; try done.
    simpl. by rewrite lookup_alter_ne.
Qed.

Lemma updateContentPiece_then_read_witness :
  ∃ db',
    updateContentPiece healthy MoreSamples.nullTitleStore 2 "Hello" "tweet" =
      (db', None) ∧
    getPieceByID healthy db' 2 = inl (PieceDetail.mk 2 "tweet" "Hello" []).
Proof.
  destruct (updateContentPiece_then_read healthy healthy MoreSamples.nullTitleStore 2
              (mkContentPieceRow "tweet" None) "Hello" "tweet")
    as (db' & Hupdate & Hread & _); [reflexivity..|].
  exists db'. split; [exact Hupdate|]. rewrite Hread. reflexivity.
Defined.

(** ** deleteContentPiece *)

Lemma usedAsContlet_true db id :
  usedAsContlet db id = true ↔
  ∃ p k, content_piece_contlets db !! (p, k) = Some id.
Proof.
  unfold usedAsContlet. rewrite existsb_exists. split.
  - intros ([[p k] c] & Hin%list_elem_of_In%elem_of_map_to_list & Hc%bool_decide_eq_true).
    simpl in Hc. subst c. by exists p, k.
  - intros (p & k & Hedge). exists (p, k, id). split.
    + by apply list_elem_of_In, elem_of_map_to_list.
    + by apply bool_decide_eq_true.
Qed.

(** The two ways in which [deleteContentPiece] succeeds. *)
Lemma deleteContentPiece_ok inlineFK fs db id db' :
  deleteContentPiece inlineFK fs db id = (db', None) →
((id ∉ entity db) ∧ db' = db) ∨
  (id ∈ entity db ∧ db' = cascadeDelete inlineFK db id ∧
   (inlineFK = true → usedAsContlet db id = false ∧ taxonomyInUse db id = false)).
Proof.
  unfold deleteContentPiece, dbDeleteEntity.
  destruct (fault fs 0); [done|].
  destruct (bool_decide (id ∈ entity db)) eqn:Hin.
  - apply bool_decide_eq_true in Hin.
    destruct (inlineFK && (usedAsContlet db id || taxonomyInUse db id)) eqn:Hfk;
      [done|].
    intros [= <-]. right. split_and!; [done..|].
    intros ->. simpl in Hfk. by apply orb_false_elim in Hfk.
  - apply bool_decide_eq_false in Hin. intros [= <-]. by left.
Qed.

Lemma scanRows_elem {A B} (scan : A → B + error) acc rows out x :
  scanRows scan acc rows = inl out → x ∈ out →
  x ∈ acc ∨ ∃ row, row ∈ rows ∧ scan row = inl x.
Proof.
  revert acc. induction rows as [|row rest IH]; intros acc; simpl.
  - intros [= <-]. by left.
  - destruct (scan row) as [y|] eqn:Hrow; [|done].
    intros Hrest Hx. destruct (IH _ Hrest Hx) as [Hacc|(r & Hr & Hscan)].
    + apply elem_of_app in Hacc as [Hacc| ->%list_elem_of_singleton]; [by left|].
      right. exists row. split; [left|done].
    + right. exists r. split; [by right|done].
Qed.

(** X8.  After [deleteContentPiece] has succeeded on the id of an entity,
    the entity is gone with its class rows: the read of the piece answers
    [sql.ErrNoRows], and no listing (content pieces, contlets, tags) shows
    the id.  The id need not have been the id of a content piece. *)
Theorem deleteContentPiece_removes inlineFK fs db id db' :
  id ∈ entity db →
  deleteContentPiece inlineFK fs db id = (db', None) →
  (id ∉ entity db') ∧
  (∀ fs', fault fs' 0 = None → getPieceByID fs' db' id = inr ErrNoRows) ∧
  (∀ fs' pieces, getAllContentPieces fs' db' = inl pieces →
                 id ∉ ContentPiece.ID <$> pieces) ∧
  (∀ fs' contlets, getAllContlets fs' db' = inl contlets →
                   id ∉ Contlet.ID <$> contlets) ∧
  (∀ coll (Hdec : RelDecision coll) fs' tags,
     getAllTags coll fs' db' = inl tags → id ∉ Tag.ID <$> tags).
Proof.
  intros Hin [[Hnotin _]|(_ & -> & _)]%deleteContentPiece_ok; [done|].
  split_and!.
  - simpl. set_solver.
  - intros fs' Hf. unfold getPieceByID. rewrite Hf. simpl.
    by rewrite lookup_delete_eq.
  - intros fs' pieces Hread (p & -> & Hp)%list_elem_of_fmap.
    unfold getAllContentPieces in Hread. destruct (fault fs' 0); [done|].
    destruct (scanRows_elem _ _ _ _ _ Hread Hp) as [Hnil|([j row] & Hrow & Hscan)].
    { by apply elem_of_nil in Hnil. }
    rewrite merge_sort_Permutation in Hrow. apply elem_of_map_to_list in Hrow.
    unfold scanContentPiece in Hscan. simpl in *.
    destruct (cp_title row); simplify_eq/=. by rewrite lookup_delete_eq in Hrow.
  - intros fs' contlets Hread (c & -> & Hc)%list_elem_of_fmap.
    unfold getAllContlets in Hread. destruct (fault fs' 0); [done|].
    destruct (scanRows_elem _ _ _ _ _ Hread Hc) as [Hnil|([j content] & Hrow & Hscan)].
    { by apply elem_of_nil in Hnil. }
    rewrite merge_sort_Permutation in Hrow.
    apply list_elem_of_omap in Hrow as (j' & Hj'%elem_of_elements & Hsum).
    apply contletSummary_Some in Hsum as [_ [= -> ->]].
    unfold scanContlet_summary in Hscan. simpl in Hscan.
    injection Hscan as Hc'. rewrite <-Hc' in Hj'. simpl in Hj'. set_solver.
  - intros coll Hdec fs' tags Hread (t & -> & Ht)%list_elem_of_fmap.
    unfold getAllTags in Hread. destruct (fault fs' 0); [done|]. simplify_eq.
    rewrite merge_sort_Permutation in Ht.
    apply elem_of_tagRows in Ht as (row & name & Hrow & _). simpl in Hrow.
    by rewrite lookup_delete_eq in Hrow.
Qed.

Lemma deleteContentPiece_removes_witness :
  (2 ∉ entity (cascadeDelete false MoreSamples.seededStore 2)) ∧
  ∀ tags,
    getAllTags String.le healthy (cascadeDelete false MoreSamples.seededStore 2) =
      inl tags →
    2 ∉ Tag.ID <$> tags.
Proof.
  destruct (deleteContentPiece_removes false healthy MoreSamples.seededStore 2
              (cascadeDelete false MoreSamples.seededStore 2))
    as (Hgone & _ & _ & _ & Htags);
    [vm_compute; set_solver|vm_compute; reflexivity|].
  split; [exact Hgone|]. intros tags. apply Htags.
Defined.

(** X9.  When the store enforces the column-level foreign keys, a contlet
    that some piece is composed of cannot be deleted: [deleteContentPiece]
    returns the error of the store, wrapped, and the store is as it was. *)
Theorem deleteContentPiece_restricted fs db id p k :
  fault fs 0 = None →
  id ∈ entity db →
  content_piece_contlets db !! (p, k) = Some id →
  deleteContentPiece true fs db id =
    (db, Some (ErrDeletePiece id (ErrDriver
       "Cannot delete or update a parent row: a foreign key constraint fails"))).
Proof.
  intros Hf Hin Hedge. unfold deleteContentPiece, dbDeleteEntity. rewrite Hf.
  rewrite bool_decide_eq_true_2 by done.
  assert (usedAsContlet db id = true) as -> by (apply usedAsContlet_true; eauto).
  done.
Qed.

Lemma deleteContentPiece_restricted_witness :
  deleteContentPiece true healthy MoreSamples.seededStore 4 =
    (MoreSamples.seededStore, Some (ErrDeletePiece 4 (ErrDriver
       "Cannot delete or update a parent row: a foreign key constraint fails"))).
Proof.
  apply (deleteContentPiece_restricted healthy MoreSamples.seededStore 4 3 100);
    [reflexivity|vm_compute; set_solver|reflexivity].
Defined.

(** The ordered edges of a piece depend on the edges of that piece only. *)
Lemma sorted_edges_ext db db' j :
  (∀ k c, content_piece_contlets db' !! (j, k) = Some c ↔
          content_piece_contlets db !! (j, k) = Some c) →
  merge_sort bySortOrder (pieceEdges db' j) = merge_sort bySortOrder (pieceEdges db j).
Proof.
  intros Hsame.
  apply (StronglySorted_unique_strong (λ a b : Z * Z, a.1 < b.1)).
  - intros ????. lia.
  - apply StronglySorted_strict; [apply StronglySorted_merge_sort; apply _|].
    rewrite merge_sort_Permutation. apply pieceEdges_keys_NoDup.
  - apply StronglySorted_strict; [apply StronglySorted_merge_sort; apply _|].
    rewrite merge_sort_Permutation. apply pieceEdges_keys_NoDup.
  - rewrite !merge_sort_Permutation. apply NoDup_Permutation.
    + eapply NoDup_fmap_1, pieceEdges_keys_NoDup.
    + eapply NoDup_fmap_1, pieceEdges_keys_NoDup.
    + intros [k c]. by rewrite !elem_of_pieceEdges.
Qed.

(** X10.  When the store enforces the column-level foreign keys, a
    deletion that succeeds leaves the read of every other piece as it was:
    same title and class, same contlets in the same order. *)
Theorem deleteContentPiece_frame fs db id db' :
  deleteContentPiece true fs db id = (db', None) →
  ∀ fs' j, j ≠ id → getPieceByID fs' db' j = getPieceByID fs' db j.
Proof.
  intros [[_ ->]|(_ & -> & Hfree)]%deleteContentPiece_ok fs' j Hj; [done|].
  destruct (Hfree eq_refl) as [Hunused _].
  assert (∀ k c, content_piece_contlets (cascadeDelete true db id) !! (j, k) = Some c ↔
                 content_piece_contlets db !! (j, k) = Some c) as Hedges.
  { intros k c. simpl. destruct (bool_decide _); [|done].
    rewrite map_lookup_filter_Some. simpl. naive_solver. }
  unfold getPieceByID, queryContlets. simpl.
  rewrite lookup_delete_ne by done.
  rewrite (sorted_edges_ext db (cascadeDelete true db id) j Hedges).
  destruct (fault fs' 0) as [e0|]; [done|].
  destruct (content_piece db !! j) as [row|]; [|done].
  destruct (cp_title row) as [title|]; [|done].
  destruct (fault fs' 1) as [e1|]; [done|].
  do 2 f_equal. rewrite <-!list_fmap_compose.
  apply list_fmap_ext. intros _ [k c] Hin%list_elem_of_lookup_2. simpl.
  rewrite merge_sort_Permutation in Hin. apply elem_of_pieceEdges in Hin.
  assert (c ≠ id) as Hc.
  { intros ->. assert (usedAsContlet db id = true) as Hused; [|congruence].
    apply usedAsContlet_true. eauto. }
  unfold joinContlet. simpl. by rewrite !lookup_delete_ne.
Qed.

Lemma deleteContentPiece_frame_witness :
  getPieceByID healthy (cascadeDelete true MoreSamples.seededStore 2) 3 =
    getPieceByID healthy MoreSamples.seededStore 3.
Proof.
  apply (deleteContentPiece_frame healthy MoreSamples.seededStore 2);
    [vm_compute; reflexivity|done].
Defined.

(** X11.  When the store does not enforce the column-level foreign keys,
    the deletion of a contlet that a piece is composed of succeeds and
    leaves the edge behind: the piece then reads that contlet as "unknown",
    with empty fields. *)
Theorem deleteContentPiece_dangling fs fs' db id p k row title :
  fault fs 0 = None → fault fs' 0 = None → fault fs' 1 = None →
  id ∈ entity db →
  content_piece_contlets db !! (p, k) = Some id →
  p ≠ id →
  content_piece db !! p = Some row → cp_title row = Some title →
  ∃ db' piece,
    deleteContentPiece false fs db id = (db', None) ∧
    getPieceByID fs' db' p = inl piece ∧
    ContletDetail.mk id "unknown" "" "" "" 0 ∈ PieceDetail.Contlets piece.
Proof.
  intros Hf Hf0 Hf1 Hin Hedge Hp Hrow Htitle.
  unfold deleteContentPiece, dbDeleteEntity. rewrite Hf.
  rewrite bool_decide_eq_true_2 by done. simpl.
  eexists _, _. split; [done|].
  rewrite (getPieceByID_found fs' _ p row title); [|done..|by simpl; rewrite lookup_delete_ne|done].
  split; [done|]. simpl.
  apply list_elem_of_fmap. exists (k, id). split.
  - unfold byPriority. simpl. by rewrite !lookup_delete_eq.
  - rewrite merge_sort_Permutation. by apply elem_of_pieceEdges.
Qed.

Lemma deleteContentPiece_dangling_witness :
  ∃ db' piece,
    deleteContentPiece false healthy MoreSamples.seededStore 4 = (db', None) ∧
    getPieceByID healthy db' 3 = inl piece ∧
    ContletDetail.mk 4 "unknown" "" "" "" 0 ∈ PieceDetail.Contlets piece.
Proof.
  apply (deleteContentPiece_dangling healthy healthy MoreSamples.seededStore 4 3 100
           (mkContentPieceRow "blog_post" (Some "About This System"))
           "About This System");
    [reflexivity..|vm_compute; set_solver|reflexivity|done|reflexivity|reflexivity].
Defined.

(** ** Attaching a contlet *)




(** ** More on schema evolution *)

Lemma identRest_not_special c :
  identRest c = true → strings.ContainsRune sqlSpecial c = false.
Proof.
  destruct c as [[] [] [] [] [] [] [] []]; vm_compute; congruence.
Qed.

Lemma identStart_identRest c : identStart c = true → identRest c = true.
Proof.
  unfold identStart, identRest. intros H.
  repeat (apply orb_true_iff in H as [H|H]); rewrite H; simpl;
    rewrite ?orb_true_r; done.
Qed.

(** X13.  A name that [validIdentifier] accepts holds no backtick, quote,
    semicolon, parenthesis, comma, space, dash, backslash or NUL byte: it
    cannot close the backticks that [updateTableSchema] puts around it. *)
Theorem validIdentifier_no_special s :
  validIdentifier s = true → strings.ContainsAny s sqlSpecial = false.
Proof.
  destruct s as [|c s]; [done|]. cbn [validIdentifier strings.ContainsAny].
  intros [Hc%identStart_identRest%identRest_not_special Hs]%andb_true_iff.
  rewrite Hc. cbn [orb]. induction s as [|d s IH]; [done|].
  cbn [allIdentRest strings.ContainsAny] in *.
  apply andb_true_iff in Hs as [Hd%identRest_not_special Hs].
  rewrite Hd. cbn [orb]. by apply IH.
Qed.

Lemma validIdentifier_no_special_witness :
  strings.ContainsAny "content_piece" sqlSpecial = false.
Proof. apply validIdentifier_no_special. reflexivity. Defined.

(** X14.  [updateTableSchema] is all or nothing.  Either the store is
    left as it was, and then the call succeeded only if the table name is
    an identifier and no column was submitted; or the store was handed one
    statement, the ALTER TABLE with one clause for every submitted column
    in the order of the submission, and then the table name and every
    column had passed validation and the call succeeded exactly when the
    store ran the statement. *)
Theorem updateTableSchema_all_or_nothing fs db tableName columns :
  ∃ db' res,
    updateTableSchema fs db tableName columns = (db', res) ∧
    ((db' = db ∧ (res = None ↔ Identifier tableName ∧ columns = [])) ∨
     (db' = withStatement db (alterQuery tableName (columnClause <$> columns)) ∧
      Identifier tableName ∧ columns ≠ [] ∧ Forall columnAccepted columns ∧
      (res = None ↔ fault fs 0 = None))).
Proof.
  destruct (validIdentifier tableName) eqn:Ht.
  - destruct (alterClausesFrom [] columns) as [clauses|err] eqn:Hloop.
    + pose proof (alterClausesFrom_inl _ _ _ Hloop) as Hall.
      destruct columns as [|col rest].
      * eexists _, _. split; [unfold updateTableSchema; by rewrite Ht|].
        left. split; [done|]. split; [|done].
        intros _. split; [by apply validIdentifier_spec|done].
      * rewrite (updateTableSchema_accepted fs db _ _ Ht Hall) by done. cbv zeta.
        eexists _, _. split; [done|]. right.
        split_and!; [done|by apply validIdentifier_spec|done|done|].
        by destruct (fault fs 0).
    + eexists _, _. split; [unfold updateTableSchema; by rewrite Ht, Hloop|].
      left. split; [done|]. split; [done|].
      intros [_ ->]. simpl in Hloop. done.
  - eexists _, _. split; [unfold updateTableSchema; by rewrite Ht|].
    left. split; [done|]. split; [done|].
    intros [Hid%validIdentifier_spec _]. congruence.
Qed.

(** X15.  When validation has passed and the store refuses the statement,
    [updateTableSchema] returns an error whose message holds the table
    name, the message of the store and the whole composed statement. *)
Theorem updateTableSchema_failure_message fs db tableName columns cause :
  Identifier tableName → Forall columnAccepted columns → columns ≠ [] →
  fault fs 0 = Some cause →
  ∃ db' err,
    updateTableSchema fs db tableName columns = (db', Some err) ∧
    strings.Contains (Error err) tableName = true ∧
    strings.Contains (Error err) (Error cause) = true ∧
    strings.Contains (Error err)
      (alterQuery tableName (columnClause <$> columns)) = true.
Proof.
  intros Ht%validIdentifier_spec Hall Hne Hf.
  rewrite (updateTableSchema_accepted fs db _ _ Ht Hall Hne). cbv zeta.
  rewrite Hf. eexists _, _. split; [done|]. cbn [Error]. split_and!.
  - apply Contains_app_r, Contains_here.
  - do 3 apply Contains_app_r. apply Contains_here.
  - do 5 apply Contains_app_r. apply Contains_refl.
Qed.

Lemma updateTableSchema_failure_message_witness :
  ∃ db' err,
    updateTableSchema [Some (ErrDriver "Unknown column")] emptyStore "content_piece"
      [Samples.column "subtitle" "TEXT"] = (db', Some err) ∧
    strings.Contains (Error err) "content_piece" = true ∧
    strings.Contains (Error err) (Error (ErrDriver "Unknown column")) = true ∧
    strings.Contains (Error err)
      (alterQuery "content_piece"
         (columnClause <$> [Samples.column "subtitle" "TEXT"])) = true.
Proof.
  apply (updateTableSchema_failure_message [Some (ErrDriver "Unknown column")]
           emptyStore "content_piece" [Samples.column "subtitle" "TEXT"]).
  - apply validIdentifier_spec. reflexivity.
  - constructor; [|constructor]. split; reflexivity.
  - discriminate.
  - reflexivity.
Defined.

(** ** The columns of a submission *)

Lemma columnsOfForm_prefix (r : http.Request) (m i fuel : nat) :
  (∀ j, (i ≤ j < i + m)%nat → is_Some (http.Form r !! colKey j "field")) →
  http.Form r !! colKey (i + m) "field" = None →
  (m < fuel)%nat →
  columnsOfForm fuel r i = Some (columnOfForm r <$> seq i m).
Proof.
  revert i fuel. induction m as [|m IH]; intros i fuel Hkeys Hend Hfuel;
    (destruct fuel as [|fuel]; [lia|]); simpl.
  - rewrite Nat.add_0_r in Hend. by rewrite Hend.
  - destruct (Hkeys i ltac:(lia)) as [vs ->].
    rewrite (IH (S i) fuel); [done| | |lia].
    + intros j Hj. apply Hkeys. lia.
    + by replace (S i + m)%nat with (i + S m)%nat by lia.
Qed.

(** X16.  The handler reads the columns numbered from 0 up to the first
    number whose field key is missing from the form, in order, and
    nothing after that gap, whatever other keys the form holds. *)
Theorem columnsOfForm_until_gap (r : http.Request) (n : nat) :
  (∀ j, (j < n)%nat → is_Some (http.Form r !! colKey j "field")) →
  http.Form r !! colKey n "field" = None →
  columnsOfForm (formFuel r) r 0 = Some (columnOfForm r <$> seq 0 n).
Proof.
  intros Hkeys Hend. apply columnsOfForm_prefix.
  - intros j Hj. apply Hkeys. lia.
  - done.
  - unfold formFuel. pose proof (form_rounds_bound r n Hkeys). lia.
Qed.

Lemma columnsOfForm_until_gap_witness :
  columnsOfForm (formFuel MoreSamples.gapRequest) MoreSamples.gapRequest 0 =
    Some [columnOfForm MoreSamples.gapRequest 0].
Proof.
  apply (columnsOfForm_until_gap MoreSamples.gapRequest 1).
  - intros j Hj. assert (j = 0)%nat as -> by lia. vm_compute. by eexists.
  - reflexivity.
Defined.

(** ** The pages of the content pieces *)

(** *** Printing a number and parsing it back *)

Lemma digit_pretty_N_char (d : N) :
  (d < 10)%N → strconv.digit (pretty_N_char d) = Some (Z.of_N d).
Proof.
  intros Hd.
  assert (d = 0 ∨ d = 1 ∨ d = 2 ∨ d = 3 ∨ d = 4 ∨ d = 5 ∨ d = 6 ∨ d = 7 ∨
          d = 8 ∨ d = 9)%N as Hcases by lia.
  repeat (destruct Hcases as [->|Hcases]; [reflexivity|]). by subst.
Qed.

Lemma digits_pretty_N_go (x : N) (s : string) :
  strconv.digits 0 (pretty_N_go x s) = strconv.digits (Z.of_N x) s.
Proof.
  revert s. induction (N.lt_wf_0 x) as [x _ IH]; intros s.
  destruct (decide (x = 0)%N) as [->|Hx]; [done|].
  rewrite pretty_N_go_step by lia.
  rewrite IH by (apply N.div_lt; lia).
  cbn [strconv.digits]. rewrite digit_pretty_N_char by (apply N.mod_lt; lia).
  f_equal. pose proof (N.div_mod x 10 ltac:(lia)) as Hdm. lia.
Qed.

(** A string of digits has no sign in front and no slash. *)
Lemma digit_Some_not_sign c d rest (A : Type) (a b e : A) :
  strconv.digit c = Some d →
  match String.String c rest with
  | String.String "-" _ => a
  | String.String "+" _ => b
  | _ => e
  end = e.
Proof.
  destruct c as [[] [] [] [] [] [] [] []]; vm_compute; congruence.
Qed.

Lemma Atoi_digits (s : string) (n : Z) :
  s ≠ "" → strconv.digits 0 s = Some n → n < 2 ^ 63 → 0 ≤ n →
  strconv.Atoi s = Some n.
Proof.
  intros Hs Hdigits Hmax Hmin. destruct s as [|c rest]; [done|].
  unfold strconv.Atoi.
  destruct (strconv.digit c) as [d|] eqn:Hd.
  2: { cbn [strconv.digits] in Hdigits. by rewrite Hd in Hdigits. }
  rewrite (digit_Some_not_sign c d rest _ _ _ _ Hd).
  rewrite Hdigits. rewrite decide_True by lia. done.
Qed.

Lemma Atoi_pretty (z : Z) :
  - 2 ^ 63 ≤ z < 2 ^ 63 → strconv.Atoi (pretty z) = Some z.
Proof.
  intros Hz. destruct z as [|x|x].
  - reflexivity.
  - apply Atoi_digits; [| |lia..].
    + change (pretty (Z.pos x)) with (pretty_N_go (N.pos x) "").
      intros Hempty. pose proof (digits_pretty_N_go (N.pos x) "") as Hd.
      rewrite Hempty in Hd. simpl in Hd. injection Hd. lia.
    + change (pretty (Z.pos x)) with (pretty_N_go (N.pos x) "").
      by rewrite digits_pretty_N_go.
  - change (pretty (Z.neg x)) with ("-" +:+ pretty_N_go (N.pos x) "").
    change ("-" +:+ pretty_N_go (N.pos x) "")
      with (String.String "-" (pretty_N_go (N.pos x) "")).
    unfold strconv.Atoi.
    destruct (pretty_N_go (N.pos x) "") as [|c rest] eqn:Hbody.
    { pose proof (digits_pretty_N_go (N.pos x) "") as Hd.
      rewrite Hbody in Hd. simpl in Hd. injection Hd. lia. }
    rewrite <-Hbody, digits_pretty_N_go. cbn [strconv.digits].
    rewrite decide_True by lia. done.
Qed.

(** *** Paths *)

Lemma dropBytes_app (s t : string) :
  strings.dropBytes (String.length s) (s +:+ t) = t.
Proof.
  induction s as [|c s IH]; [by destruct t|].
  change (String.String c s +:+ t) with (String.String c (s +:+ t)). done.
Qed.

Lemma TrimPrefix_app (s t : string) : strings.TrimPrefix (s +:+ t) s = t.
Proof. unfold strings.TrimPrefix. by rewrite HasPrefix_app, dropBytes_app. Qed.

Lemma splitOn_no_sep (s : string) :
  strings.ContainsAny s "/" = false → splitOn "/" s = [s].
Proof.
  induction s as [|c s IH]; [done|]. cbn [strings.ContainsAny strings.ContainsRune].
  rewrite orb_false_r. intros [Hc Hs]%orb_false_elim.
  cbn [splitOn]. rewrite Hc, IH by done. done.
Qed.

Lemma not_sign_default c rest (A : Type) (a b e : A) :
  c ≠ "-"%char → c ≠ "+"%char →
  match String.String c rest with
  | String.String "-" _ => a
  | String.String "+" _ => b
  | _ => e
  end = e.
Proof.
  destruct c as [[] [] [] [] [] [] [] []]; intros; first [reflexivity|congruence].
Qed.

Lemma digits_no_slash (s : string) (n m : Z) :
  strconv.digits n s = Some m → strings.ContainsAny s "/" = false.
Proof.
  revert n. induction s as [|c s IH]; intros n; [done|]. cbn [strconv.digits].
  destruct (strconv.digit c) as [d|] eqn:Hd; [|done]. intros Hrest%IH.
  cbn [strings.ContainsAny strings.ContainsRune]. rewrite Hrest, !orb_false_r.
  apply Ascii.eqb_neq. intros ->. by vm_compute in Hd.
Qed.

(** A path segment that [strconv.Atoi] accepts holds no slash and is none
    of the words of the router. *)
Lemma Atoi_Some_segment (s : string) (n : Z) :
  strconv.Atoi s = Some n →
  strings.ContainsAny s "/" = false ∧
  s ≠ "" ∧ s ≠ "new" ∧ s ≠ "create" ∧ s ≠ "update" ∧ s ≠ "delete".
Proof.
  intros Hs. split; [|by repeat split; intros ->; vm_compute in Hs].
  destruct s as [|c rest]; [done|]. unfold strconv.Atoi in Hs.
  destruct (decide (c = "-"%char)) as [->|Hminus];
    [|destruct (decide (c = "+"%char)) as [->|Hplus]].
  - destruct rest as [|c' rest']; [done|].
    destruct (strconv.digits 0 (String.String c' rest')) eqn:Hd; [|done].
    apply digits_no_slash in Hd.
    cbn [strings.ContainsAny strings.ContainsRune] in *. done.
  - destruct rest as [|c' rest']; [done|].
    destruct (strconv.digits 0 (String.String c' rest')) eqn:Hd; [|done].
    apply digits_no_slash in Hd.
    cbn [strings.ContainsAny strings.ContainsRune] in *. done.
  - rewrite (not_sign_default c rest _ _ _ _ Hminus Hplus) in Hs.
    destruct (strconv.digits 0 (String.String c rest)) eqn:Hd; [|done].
    by apply digits_no_slash in Hd.
Qed.

(** The router on a path of one numeric segment: the detail page. *)
Lemma piecesRouter_number inlineFK fs db r part id :
  http.URL_Path r = "/pieces/" +:+ part →
  strconv.Atoi part = Some id →
  piecesRouter inlineFK fs db r = (db, pieceDetailHandler fs db id).
Proof.
  intros Hpath Hid.
  destruct (Atoi_Some_segment part id Hid)
    as (Hslash & Hempty & Hnew & Hcreate & Hupdate & Hdelete).
  unfold piecesRouter. rewrite Hpath, TrimPrefix_app, splitOn_no_sep by done.
  apply String.eqb_neq in Hempty, Hnew, Hcreate, Hupdate, Hdelete.
  rewrite Hempty, Hnew, Hcreate, Hupdate, Hdelete, Hid. done.
Qed.

Lemma splitOn_nonempty (sep : ascii) (s : string) : splitOn sep s ≠ [].
Proof.
  destruct s as [|c s]; simpl; [done|].
  destruct (Ascii.eqb c sep); [done|]. by destruct (splitOn sep s).
Qed.

Lemma splitOn_singleton (sep : ascii) (s piece : string) :
  splitOn sep s = [piece] → piece = s.
Proof.
  revert piece. induction s as [|c s IH]; intros piece; simpl.
  - by intros [= <-].
  - pose proof (splitOn_nonempty sep s) as Hne.
    destruct (Ascii.eqb c sep); [by intros [= _ Hrest]|].
    destruct (splitOn sep s) as [|p ps]; [done|].
    intros [= <- ->]. by rewrite (IH p).
Qed.

(** X17.  After a successful creation the handler redirects to the page
    of the created piece: on a consistent store whose next id is a positive
    INT and on a connection that holds, the submission of the form of a new
    piece, with a title and a class that fit their columns (TEXT and
    VARCHAR(255)), is answered by a redirect, and the router answers a
    request for the address of the redirect by rendering the piece that was
    created, with the submitted title and class. *)
Theorem create_redirect_shows_piece inlineFK fs db r :
  entitiesConsistent db →
  (∀ n, fault fs n = None) →
  (∀ k, content_piece_contlets db !! (entity_auto_increment db, k) = None) →
  0 < entity_auto_increment db ≤ INT_MAX →
  http.Method r = "POST" → http.URL_Path r = "/pieces/create" →
  http.ParseFormErr r = None →
  fitsTEXT (http.FormValue r "title") = true →
  fitsVARCHAR 255 (http.FormValue r "class") = true →
  ∃ db' url,
    piecesRouter inlineFK fs db r = (db', Wrote (http.Redirect url 302)) ∧
    ∀ r', http.URL_Path r' = url →
          piecesRouter inlineFK fs db' r' =
            (db', Rendered "piece_form.html"
                    (Some (PieceDetail.mk (entity_auto_increment db)
                             (http.FormValue r "class") (http.FormValue r "title") []))).
Proof.
  intros Hdb Hfs Hedges Hint Hmethod Hpath Hform _ _.
  assert (- 2 ^ 63 ≤ entity_auto_increment db < 2 ^ 63) as Hrange.
  { unfold INT_MAX in Hint. lia. }
  destruct (createContentPiece_on_consistent fs db
              (http.FormValue r "title") (http.FormValue r "class") Hdb Hfs Hedges)
    as (db' & Hcreate & _ & Hread).
  exists db', ("/pieces/" +:+ pretty (entity_auto_increment db)). split.
  - unfold piecesRouter. rewrite Hpath, Hmethod. simpl.
    unfold createPieceHandler. rewrite Hmethod, Hform. simpl. by rewrite Hcreate.
  - intros r' Hpath'.
    rewrite (piecesRouter_number _ _ _ _ _ (entity_auto_increment db) Hpath')
      by by apply Atoi_pretty.
    unfold pieceDetailHandler. by rewrite Hread.
Qed.

Lemma create_redirect_shows_piece_witness :
  ∃ db' url,
    piecesRouter true healthy emptyStore MoreSamples.createRequest =
      (db', Wrote (http.Redirect url 302)) ∧
    ∀ r', http.URL_Path r' = url →
          piecesRouter true healthy db' r' =
            (db', Rendered "piece_form.html"
                    (Some (PieceDetail.mk 1 "blog_post" "About This System" []))).
Proof.
  apply (create_redirect_shows_piece true healthy emptyStore MoreSamples.createRequest).
  - split; [intros id Hid; by apply elem_of_empty in Hid|]. vm_compute. set_solver.
  - intros n. by destruct n.
  - intros k. apply lookup_empty.
  - vm_compute. split; [reflexivity|discriminate].
  - reflexivity.
  - reflexivity.
  - reflexivity.
  - reflexivity.
  - reflexivity.
Defined.

(** X18.  A request for a page of one segment that is neither a number
    nor a word that the router knows for the method of the request gets no
    answer at all from [piecesRouter]: no page and no [http.NotFound]. *)
Theorem piecesRouter_no_reply inlineFK fs db r part :
  http.URL_Path r = "/pieces/" +:+ part →
  strings.ContainsAny part "/" = false →
  part ≠ "" →
  strconv.Atoi part = None →
  (part = "new" → http.Method r ≠ "GET") →
  (part ∈ ["create"; "update"; "delete"] → http.Method r ≠ "POST") →
  piecesRouter inlineFK fs db r = (db, NoReply).
Proof.
  intros Hpath Hslash Hempty Hnum Hnew Hpost.
  unfold piecesRouter. rewrite Hpath, TrimPrefix_app, splitOn_no_sep by done.
  rewrite Hnum. apply String.eqb_neq in Hempty. rewrite Hempty. simpl.
  destruct (String.eqb_spec part "new") as [->|_]; simpl.
  { unfold MethodGet. by rewrite (proj2 (String.eqb_neq _ _)) by by apply Hnew. }
  destruct (String.eqb_spec part "create") as [->|_]; simpl.
  { rewrite (proj2 (String.eqb_neq _ _)) by (apply Hpost; set_solver). done. }
  destruct (String.eqb_spec part "update") as [->|_]; simpl.
  { rewrite (proj2 (String.eqb_neq _ _)) by (apply Hpost; set_solver). done. }
  destruct (String.eqb_spec part "delete") as [->|_]; simpl; [|done].
  rewrite (proj2 (String.eqb_neq _ _)) by (apply Hpost; set_solver). done.
Qed.

Lemma piecesRouter_no_reply_witness :
  piecesRouter true healthy MoreSamples.seededStore MoreSamples.wordRequest =
    (MoreSamples.seededStore, NoReply).
Proof.
  apply (piecesRouter_no_reply true healthy MoreSamples.seededStore
           MoreSamples.wordRequest "about");
    [reflexivity|reflexivity|discriminate|reflexivity|discriminate|].
  intros Hin. exfalso. set_solver.
Defined.

(** X19.  The page of a piece, under any method: a request for
    [/pieces/<number>] is answered [http.NotFound] when no content piece
    has that id, and by rendering the piece with its ordered contlets when
    the piece is there with a title; the store is not touched. *)
Theorem piecesRouter_detail inlineFK fs db r part id :
  http.URL_Path r = "/pieces/" +:+ part →
  strconv.Atoi part = Some id →
  fault fs 0 = None → fault fs 1 = None →
  (content_piece db !! id = None →
   piecesRouter inlineFK fs db r = (db, NotFound)) ∧
  (∀ row title,
     content_piece db !! id = Some row → cp_title row = Some title →
     piecesRouter inlineFK fs db r =
       (db, Rendered "piece_form.html"
              (Some (PieceDetail.mk id (cp_class row) title
                       ((λ e, byPriority db e.2) <$>
                          merge_sort bySortOrder (pieceEdges db id)))))).
Proof.
  intros Hpath Hid Hf0 Hf1.
  rewrite (piecesRouter_number _ _ _ _ _ id Hpath Hid). unfold pieceDetailHandler.
  split.
  - intros Hmissing. unfold getPieceByID. by rewrite Hf0, Hmissing.
  - intros row title Hrow Htitle.
    by rewrite (getPieceByID_found fs db id row title).
Qed.

Lemma piecesRouter_detail_witness :
  piecesRouter true healthy MoreSamples.seededStore
    (http.mkRequest "GET" "/pieces/7" None ∅) = (MoreSamples.seededStore, NotFound).
Proof.
  apply (piecesRouter_detail true healthy MoreSamples.seededStore
           (http.mkRequest "GET" "/pieces/7" None ∅) "7" 7); reflexivity.
Defined.

(** X20.  The submission of the edit form for an id that no content piece
    has is answered like a success, by a redirect to the page of that id,
    and the store is as it was; the router answers the request for that
    page with [http.NotFound]. *)
Theorem update_missing_redirects_to_not_found inlineFK fs db r id :
  http.Method r = "POST" → http.URL_Path r = "/pieces/update" →
  http.ParseFormErr r = None →
  strconv.Atoi (http.FormValue r "id") = Some id →
  content_piece db !! id = None →
  fault fs 0 = None →
  piecesRouter inlineFK fs db r =
    (db, Wrote (http.Redirect ("/pieces/" +:+ pretty id) 302)) ∧
  ∀ r', http.URL_Path r' = "/pieces/" +:+ pretty id →
        piecesRouter inlineFK fs db r' = (db, NotFound).
Proof.
  intros Hmethod Hpath Hform Hid Hmissing Hf. split.
  - unfold piecesRouter. rewrite Hpath, Hmethod. simpl.
    unfold updatePieceHandler. rewrite Hmethod, Hform, Hid. simpl.
    unfold updateContentPiece. rewrite Hf.
    by rewrite alter_id', withContentPiece_same.
  - intros r' Hpath'.
    assert (- 2 ^ 63 ≤ id < 2 ^ 63) as Hrange.
    { unfold strconv.Atoi in Hid. repeat case_match; simplify_eq; lia. }
    rewrite (piecesRouter_number _ _ _ _ _ id Hpath') by by apply Atoi_pretty.
    unfold pieceDetailHandler, getPieceByID. by rewrite Hf, Hmissing.
Qed.

Lemma update_missing_redirects_to_not_found_witness :
  piecesRouter true healthy MoreSamples.seededStore MoreSamples.updateMissingRequest =
    (MoreSamples.seededStore, Wrote (http.Redirect "/pieces/42" 302)).
Proof.
  apply (update_missing_redirects_to_not_found true healthy MoreSamples.seededStore
           MoreSamples.updateMissingRequest 42); reflexivity.
Defined.

(** X21.  [piecesRouter] changes the store only for a POST to
    [/pieces/create], [/pieces/update] or [/pieces/delete]: every other
    request leaves the store as it was. *)
Theorem piecesRouter_writes_only_on_post inlineFK fs db r db' reply :
  piecesRouter inlineFK fs db r = (db', reply) →
  db' ≠ db →
  http.Method r = "POST" ∧
  strings.TrimPrefix (http.URL_Path r) "/pieces/" ∈ ["create"; "update"; "delete"].
Proof.
  unfold piecesRouter.
  destruct (splitOn "/" (strings.TrimPrefix (http.URL_Path r) "/pieces/"))
    as [|part [|action [|]]] eqn:Hparts.
  - by intros [= <- _].
  - apply splitOn_singleton in Hparts. rewrite <-Hparts.
    destruct (_ && _); [by intros [= <- _]|].
    destruct (String.eqb_spec part "create") as [->|_]; simpl.
    { destruct (String.eqb_spec (http.Method r) http.MethodPost) as [Hm|_].
      - intros _ _. split; [done|]. set_solver.
      - destruct (strconv.Atoi "create"); by intros [= <- _]. }
    destruct (String.eqb_spec part "update") as [->|_]; simpl.
    { destruct (String.eqb_spec (http.Method r) http.MethodPost) as [Hm|_].
      - intros _ _. split; [done|]. set_solver.
      - destruct (strconv.Atoi "update"); by intros [= <- _]. }
    destruct (String.eqb_spec part "delete") as [->|_]; simpl.
    { destruct (String.eqb_spec (http.Method r) http.MethodPost) as [Hm|_].
      - intros _ _. split; [done|]. set_solver.
      - destruct (strconv.Atoi "delete"); by intros [= <- _]. }
    destruct (negb _); [|by intros [= <- _]].
    destruct (strconv.Atoi part); by intros [= <- _].
  - destruct (_ && _); [|by intros [= <- _]].
    destruct (strconv.Atoi part); by intros [= <- _].
  - by intros [= <- _].
Qed.

Lemma piecesRouter_writes_only_on_post_witness :
  http.Method MoreSamples.createRequest = "POST" ∧
  strings.TrimPrefix (http.URL_Path MoreSamples.createRequest) "/pieces/"
    ∈ ["create"; "update"; "delete"].
Proof.
  apply (piecesRouter_writes_only_on_post true healthy emptyStore
           MoreSamples.createRequest
           (piecesRouter true healthy emptyStore MoreSamples.createRequest).1
           (piecesRouter true healthy emptyStore MoreSamples.createRequest).2).
  - reflexivity.
  - intros Heq. apply (f_equal entity_auto_increment) in Heq.
    vm_compute in Heq. discriminate.
Defined.

(** ** The schema script *)

Lemma take_drop_bytes (n : nat) (s : string) :
  s = takeBytes n s +:+ strings.dropBytes n s.
Proof.
  revert s. induction n as [|n IH]; intros [|c s]; try done.
  simpl. change (String.String c (takeBytes n s) +:+ strings.dropBytes n s)
    with (String.String c (takeBytes n s +:+ strings.dropBytes n s)).
  by rewrite <-IH.
Qed.

Lemma HasPrefix_inv (s prefix : string) :
  strings.HasPrefix s prefix = true → ∃ rest, s = prefix +:+ rest.
Proof.
  revert s. induction prefix as [|p prefix IH]; intros s; [by exists s|].
  destruct s as [|c s]; [done|]. simpl.
  intros [->%Ascii.eqb_eq (rest & ->)%IH]%andb_true_iff. by exists rest.
Qed.

Lemma HasPrefix_takeBytes (n : nat) (s prefix : string) :
  strings.HasPrefix (takeBytes n s) prefix = true → strings.HasPrefix s prefix = true.
Proof.
  revert n s. induction prefix as [|p prefix IH]; intros n s; [done|].
  destruct n as [|n], s as [|c s]; try done. simpl.
  intros [-> ?%IH]%andb_true_iff. done.
Qed.

Lemma indexOf_None (s substr : string) :
  indexOf s substr = None ↔ strings.Contains s substr = false.
Proof.
  induction s as [|c s IH]; cbn [indexOf strings.Contains].
  - destruct (strings.HasPrefix "" substr); naive_solver.
  - destruct (strings.HasPrefix (String.String c s) substr); simpl; [naive_solver|].
    rewrite <-IH. by destruct (indexOf s substr).
Qed.

(** The position found is the first: the occurrence starts there, and
    there is none before. *)
Lemma indexOf_Some (s substr : string) (n : nat) :
  substr ≠ "" → indexOf s substr = Some n →
  strings.HasPrefix (strings.dropBytes n s) substr = true ∧
  strings.Contains (takeBytes n s) substr = false.
Proof.
  intros Hne. revert n. induction s as [|c s IH]; intros n; cbn [indexOf].
  - destruct (strings.HasPrefix "" substr) eqn:Hp; [|done].
    intros [= <-]. split; [done|]. by destruct substr.
  - destruct (strings.HasPrefix (String.String c s) substr) eqn:Hp.
    + intros [= <-]. split; [done|]. by destruct substr.
    + destruct (indexOf s substr) as [m|] eqn:Hm; [|done]. intros [= <-].
      destruct (IH m eq_refl) as [Hhere Hbefore]. split; [done|].
      cbn [takeBytes strings.Contains]. rewrite Hbefore, orb_false_r.
      destruct (strings.HasPrefix (String.String c (takeBytes m s)) substr) eqn:Hq;
        [|done].
      apply (HasPrefix_takeBytes (S m) (String.String c s)) in Hq. congruence.
Qed.

(** The end marker cannot start inside the start marker. *)
Lemma indexOf_end_after_start (tail : string) (e : nat) :
  indexOf (schemaStart +:+ tail) schemaEnd = Some e →
  ∃ e', e = (String.length schemaStart + e')%nat ∧ indexOf tail schemaEnd = Some e'.
Proof.
  unfold schemaStart, schemaEnd.
  change ("-- LAYER 0:" +:+ tail) with
    (String.String "-" (String.String "-" (String.String " " (String.String "L"
      (String.String "A" (String.String "Y" (String.String "E" (String.String "R"
        (String.String " " (String.String "0" (String.String ":" tail))))))))))).
  cbn [indexOf strings.HasPrefix Ascii.eqb Bool.eqb andb].
  destruct (indexOf tail _) as [e'|]; [|done].
  intros [= <-]. by exists e'.
Qed.

(** What the script is, when there is one. *)
Lemma extractSchema_inl (file script : string) :
  extractSchema file = inl script →
  ∃ before rest,
    file = before +:+ script +:+ schemaEnd +:+ rest ∧
    strings.Contains before schemaStart = false ∧
    strings.HasPrefix script schemaStart = true ∧
    strings.Contains script schemaEnd = false.
Proof.
  unfold extractSchema, Index.
  destruct (indexOf file schemaStart) as [n|] eqn:Hstart; [|done].
  destruct (Z.of_nat n =? -1) eqn:Hn; [apply Z.eqb_eq in Hn; lia|]. rewrite Nat2Z.id.
  apply indexOf_Some in Hstart as [Hhere Hbefore]; [|done].
  apply HasPrefix_inv in Hhere as [tail Htail]. rewrite Htail.
  destruct (indexOf (schemaStart +:+ tail) schemaEnd) as [e|] eqn:Hend; [|done].
  destruct (Z.of_nat e =? -1) eqn:He; [apply Z.eqb_eq in He; lia|].
  rewrite Nat2Z.id. intros [= <-].
  destruct (indexOf_end_after_start tail e Hend) as (e' & -> & Hend').
  apply indexOf_Some in Hend as [Hhere Hbefore_end]; [|done].
  apply HasPrefix_inv in Hhere as [rest Hrest].
  exists (takeBytes n file), rest. split_and!.
  - rewrite <-Hrest.
    rewrite <-(take_drop_bytes (String.length schemaStart + e') (schemaStart +:+ tail)).
    rewrite <-Htail. apply take_drop_bytes.
  - done.
  - unfold schemaStart. simpl. done.
  - done.
Qed.


(** X22.  When [createSchemaFromArchitecture] gets to run a script, the
    script is the text of the file from the first occurrence of the start
    marker up to the first occurrence of the end marker after it: the file
    is a text without the start marker, then the script, then the end
    marker and the rest; the script begins with the start marker and does
    not hold the end marker. *)
Theorem extractSchema_between (file script : string) :
  extractSchema file = inl script →
  ∃ before rest,
    file = before +:+ script +:+ schemaEnd +:+ rest ∧
    strings.Contains before schemaStart = false ∧
    strings.HasPrefix script schemaStart = true ∧
    strings.Contains script schemaEnd = false.
Proof. apply extractSchema_inl. Qed.

Lemma extractSchema_between_witness :
  ∃ before rest,
    "# Notes -- LAYER 0: CREATE TABLE entity (id INT); ## 5. Application & UI Design" =
      before +:+ "-- LAYER 0: CREATE TABLE entity (id INT); " +:+ schemaEnd +:+ rest ∧
    strings.Contains before schemaStart = false ∧
    strings.HasPrefix "-- LAYER 0: CREATE TABLE entity (id INT); " schemaStart = true ∧
    strings.Contains "-- LAYER 0: CREATE TABLE entity (id INT); " schemaEnd = false.
Proof.
  apply (extractSchema_between
           "# Notes -- LAYER 0: CREATE TABLE entity (id INT); ## 5. Application & UI Design"
           "-- LAYER 0: CREATE TABLE entity (id INT); ").
  reflexivity.
Defined.

(** X23.  [createSchemaFromArchitecture] hands a script to the store only
    if the file was read and its text holds both markers.  In every other
    case, the file not read or a marker missing, the process ends in
    [log.Fatal] with the store as it was; it also does when the end marker
    stands before the start marker only.  When a script is handed over, the
    function returns if the store accepts the script and the process ends in
    [log.Fatal] if the store refuses it. *)
Theorem createSchemaFromArchitecture_needs_markers fs db file :
  ∃ db' res,
    createSchemaFromArchitecture fs db file = (db', res) ∧
    ((db' = db ∧ ∃ fatal, res = Some fatal) ∨
     (∃ text script,
        file = inl text ∧
        strings.Contains text schemaStart = true ∧
        strings.Contains text schemaEnd = true ∧
        extractSchema text = inl script ∧
        db' = withStatement db script ∧
        (res = None ↔ fault fs 0 = None) ∧
        (∀ err, fault fs 0 = Some err →
                res = Some ("Failed to execute schema script: " +:+ Error err)))) ∧
    ((∀ text, file = inl text →
              strings.Contains text schemaStart = false ∨
              strings.Contains text schemaEnd = false) →
     db' = db ∧ ∃ fatal, res = Some fatal).
Proof.
  unfold createSchemaFromArchitecture. destruct file as [text|err].
  2: { eexists _, _. split_and!; [done|left; eauto|eauto]. }
  destruct (extractSchema text) as [script|fatal] eqn:Hscript.
  2: { eexists _, _. split_and!; [done|left; eauto|eauto]. }
  destruct (extractSchema_inl text script Hscript)
    as (before & rest & Htext & _ & [tail Htail]%HasPrefix_inv & _).
  assert (strings.Contains text schemaStart = true) as Hstart.
  { rewrite Htext, Htail. apply Contains_app_r.
    rewrite string_app_assoc. apply Contains_here. }
  assert (strings.Contains text schemaEnd = true) as Hend.
  { rewrite Htext. do 2 apply Contains_app_r. apply Contains_here. }
  unfold dbExecDDL. destruct (fault fs 0) as [err|] eqn:Hfault.
  - eexists _, _. split_and!; [done| |].
    + right. exists text, script. split_and!; [done..| |by intros ? [= <-]].
      by split.
    + intros Hmiss. destruct (Hmiss text eq_refl); congruence.
  - eexists _, _. split_and!; [done| |].
    + right. exists text, script. split_and!; [done..| |done]. by split.
    + intros Hmiss. destruct (Hmiss text eq_refl); congruence.
Qed.
